(** * The article-check worker: check lifecycle and rate limiting

    A shallow embedding of [cloudflare-worker/services/queueManager.ts]
    (class [QueueManager]) and of the rate limiter of the quality-check
    runner ([RATE_LIMITS], [getRateLimitState], [updateRateLimitState],
    [checkRateLimit] and the output accounting at the end of
    [validateWithOpenRouter]).

    Modelling decisions.
    - Numbers.  Every number the code computes with is an integer
      (millisecond instants of [Date.now()], PR numbers, token counts), far
      inside the range in which IEEE doubles are exact, so a number is a [Z].
      [Math.ceil (x / d)] on such integers is the integer ceiling.
    - The KV namespace [PR_STATE].  The worker stores JSON texts; it only
      ever writes [JSON.stringify] of a record and reads through
      [JSON.parse], so the namespace is modelled at the level of the parsed
      documents.  Check records live under [getQueueKey job] (always
      prefixed ["queue:"]), the rate-limit counter under the one key
      ["rate_limit"]; the namespace is the pair of the two families.
      [JSON.parse (..) as QueuedCheck] is an unchecked cast, so the [status]
      of a stored record is an arbitrary string.
      A stored text is never empty, so [if (existing)] tests presence.
    - The store is available: [get], [put], [delete] and [list] do not
      fail, and [list ({prefix})] returns every key under the prefix, in one
      page.
    - Effects.  An [async] function is a function from the world to a
      completion (a returned value or a thrown exception) and the next
      world.  The world holds the namespace, the log of the writes made to
      it, and the clock; each [Date.now()] consumes one clock reading, and
      no relation between successive readings is assumed. *)

From Stdlib Require Import ZArith String Ascii DecimalString DecimalZ Lia.
From Stdlib.Strings Require Import Byte.
From stdpp Require Import gmap strings list fin_maps.

Open Scope Z_scope.

(** ** JavaScript primitives *)

(** [Math.ceil (x / d)] for integers [x] and [d > 0]. *)
Definition Math_ceil_div (x d : Z) : Z := - ((- x) / d).

(** [`${n}`] for an integer [n]. *)
Definition Number_toString (n : Z) : string :=
  NilZero.string_of_int (Z.to_int n).

(** The escape [\n] of a template literal. *)
Definition nl : string := String "010"%char EmptyString.

(** Truthiness of an optional string argument: [undefined] and [""] are
    falsy. *)
Definition truthy (s : option string) : bool :=
  match s with
  | Some EmptyString => false
  | Some _ => true
  | None => false
  end.

(** ** Data model ([types.ts]) *)

Module PullRequestJob.
Record t : Type := mk {
  repository : string;
  prNumber : Z;
  commentId : option Z
}.
End PullRequestJob.

Module QueuedCheck.
(** The union type of [status], as the parameter of [updateCheckStatus]
    has it. *)
Inductive Status : Type := pending | processing | completed | failed.

Definition text (s : Status) : string :=
  match s with
  | pending => "pending"
  | processing => "processing"
  | completed => "completed"
  | failed => "failed"
  end.

Record t : Type := mk {
  repository : string;
  prNumber : Z;
  commentId : option Z;
  timestamp : Z;
  status : string;
  result : option string
}.
End QueuedCheck.

Module RateLimitState.
Record t : Type := mk {
  requestCount : Z;
  inputTokens : Z;
  outputTokens : Z;
  timestamp : Z
}.
End RateLimitState.

Module RATE_LIMITS.
Definition requestsPerMinute : Z := 5.
Definition inputTokensPerMinute : Z := 10000.
Definition outputTokensPerMinute : Z := 2000.
End RATE_LIMITS.

(** The value [enqueueCheck] resolves to. *)
Module Enqueued.
Record t : Type := mk {
  status : string;
  isNew : bool
}.
End Enqueued.

(** ** The world: KV namespace, write log and clock *)

Record KVNamespace : Type := mkKV {
  queue_docs : gmap string QueuedCheck.t;
  rate_limit_doc : option RateLimitState.t
}.

Inductive KVWrite : Type :=
  | PutCheck (key : string) (doc : QueuedCheck.t)
  | PutRateLimit (doc : RateLimitState.t)
  | Delete (key : string).

Record World : Type := mkWorld {
  PR_STATE : KVNamespace;
  writes : list KVWrite;
  clock : nat -> Z;
  reads : nat
}.

(** The instant the next [Date.now()] returns. *)
Definition now (w : World) : Z := clock w (reads w).

(** The world after [n] more clock readings and nothing else. *)
Definition elapse (n : nat) (w : World) : World :=
  mkWorld (PR_STATE w) (writes w) (clock w) (n + reads w).

Inductive Exn : Type :=
  | Error (message : string)
  | TypeError (message : string).

Inductive Completion (A : Type) : Type :=
  | Return (a : A)
  | Throw (e : Exn).
Arguments Return {A} a.
Arguments Throw {A} e.

Definition Promise (A : Type) : Type := World -> Completion A * World.

Definition ret {A} (a : A) : Promise A := fun w => (Return a, w).

Definition throw {A} (e : Exn) : Promise A := fun w => (Throw e, w).

Definition bind {A B} (c : Promise A) (k : A -> Promise B) : Promise B :=
  fun w =>
    match c w with
    | (Return a, w') => k a w'
    | (Throw e, w') => (Throw e, w')
    end.

Notation "x <- c ;; k" := (bind c (fun x => k))
  (at level 100, c at next level, right associativity).
Notation "c ;;; k" := (bind c (fun _ => k))
  (at level 100, right associativity).

(** [for (const x of xs) { await body x }] *)
Fixpoint for_of {A} (xs : list A) (body : A -> Promise unit) : Promise unit :=
  match xs with
  | [] => ret tt
  | x :: rest => body x ;;; for_of rest body
  end.

Definition Date_now : Promise Z :=
  fun w => (Return (now w), elapse 1 w).

(** Modelled from the spec: the key-value service behind [PR_STATE], which
    the worker only calls (section 6: [get] returns the value or absent,
    [put] is a full overwrite, [delete], and [list] returns the keys under a
    prefix).  [get_check], [put_check], [delete_key] and [list_keys] act on
    the check records, [get_rate_limit] and [put_rate_limit] on the document
    under ["rate_limit"]. *)
Definition get_check (key : string) : Promise (option QueuedCheck.t) :=
  fun w => (Return (queue_docs (PR_STATE w) !! key), w).

Definition put_check (key : string) (doc : QueuedCheck.t) : Promise unit :=
  fun w =>
    (Return tt,
     mkWorld (mkKV (<[key := doc]> (queue_docs (PR_STATE w)))
                   (rate_limit_doc (PR_STATE w)))
             (PutCheck key doc :: writes w) (clock w) (reads w)).

Definition delete_key (key : string) : Promise unit :=
  fun w =>
    (Return tt,
     mkWorld (mkKV (delete key (queue_docs (PR_STATE w)))
                   (rate_limit_doc (PR_STATE w)))
             (Delete key :: writes w) (clock w) (reads w)).

Definition list_keys (prefix : string) : Promise (list string) :=
  fun w =>
    (Return (filter (fun key => Is_true (String.prefix prefix key))
                    (map_to_list (queue_docs (PR_STATE w))).*1),
     w).

Definition get_rate_limit : Promise (option RateLimitState.t) :=
  fun w => (Return (rate_limit_doc (PR_STATE w)), w).

Definition put_rate_limit (doc : RateLimitState.t) : Promise unit :=
  fun w =>
    (Return tt,
     mkWorld (mkKV (queue_docs (PR_STATE w)) (Some doc))
             (PutRateLimit doc :: writes w) (clock w) (reads w)).

(** ** class QueueManager *)

Definition getQueueKey (job : PullRequestJob.t) : string :=
  "queue:" +:+ PullRequestJob.repository job +:+ ":"
           +:+ Number_toString (PullRequestJob.prNumber job).

Definition in_progress_message (status : string) : string :=
  "> ⏳ **Article Check Status**: Check already in progress" +:+ nl +:+ nl
  +:+ "Current status: `" +:+ status +:+ "`".

Definition cooldown_message (waitTime : Z) : string :=
  "> ⏰ **Cooldown Period**" +:+ nl +:+ nl
  +:+ "Please wait `" +:+ Number_toString waitTime
  +:+ "` seconds before requesting another check." +:+ nl +:+ nl
  +:+ "_This helps prevent API rate limits and ensures thorough analysis._".

Definition started_message : string :=
  "> 🔄 **Article Check Started**" +:+ nl +:+ nl
  +:+ "Your request has been queued and will be processed shortly.".

Definition cooldownPeriod : Z := 5 * 60 * 1000.

(** [check.status !== "completed" && check.status !== "failed"] *)
Definition not_terminal (status : string) : bool :=
  negb (String.eqb status "completed") && negb (String.eqb status "failed").

(** The [if (existing) { .. }] block of [enqueueCheck]: [Some r] when it
    returns [r], [None] when control falls through to the admission. *)
Definition enqueueCheck_guard (existing : option QueuedCheck.t)
  : Promise (option Enqueued.t) :=
  match existing with
  | Some check =>
      now <- Date_now ;;
      if not_terminal (QueuedCheck.status check) then
        ret (Some (Enqueued.mk
                     (in_progress_message (QueuedCheck.status check)) false))
      else if now - QueuedCheck.timestamp check <? cooldownPeriod then
        let waitTime :=
          Math_ceil_div (cooldownPeriod - (now - QueuedCheck.timestamp check))
                        1000 in
        ret (Some (Enqueued.mk (cooldown_message waitTime) false))
      else ret None
  | None => ret None
  end.

Definition enqueueCheck (job : PullRequestJob.t) : Promise Enqueued.t :=
  let queueKey := getQueueKey job in
  existing <- get_check queueKey ;;
  returned <- enqueueCheck_guard existing ;;
  match returned with
  | Some r => ret r
  | None =>
      timestamp <- Date_now ;;
      let newCheck :=
        QueuedCheck.mk (PullRequestJob.repository job)
                       (PullRequestJob.prNumber job)
                       (PullRequestJob.commentId job)
                       timestamp "pending" None in
      put_check queueKey newCheck ;;;
      ret (Enqueued.mk started_message true)
  end.

Definition not_found : Exn := Error "QueueManager: Check not found in queue".

Definition updateCheckStatus (job : PullRequestJob.t)
    (status : QueuedCheck.Status) (result : option string) : Promise unit :=
  let queueKey := getQueueKey job in
  existing <- get_check queueKey ;;
  match existing with
  | None => throw not_found
  | Some check =>
      let check :=
        QueuedCheck.mk (QueuedCheck.repository check)
                       (QueuedCheck.prNumber check)
                       (QueuedCheck.commentId check)
                       (QueuedCheck.timestamp check)
                       (QueuedCheck.text status)
                       (if truthy result then result
                        else QueuedCheck.result check) in
      put_check queueKey check
  end.

Definition getQueueStatus (job : PullRequestJob.t)
  : Promise (option QueuedCheck.t) :=
  get_check (getQueueKey job).

(** [JSON.parse (null)] is [null], and reading [.timestamp] off it throws. *)
Definition null_timestamp : Exn :=
  TypeError "Cannot read properties of null (reading 'timestamp')".

Definition cleanOldChecks_body (oneHourAgo : Z) (key : string) : Promise unit :=
  existing <- get_check key ;;
  match existing with
  | None => throw null_timestamp
  | Some check =>
      if QueuedCheck.timestamp check <? oneHourAgo then delete_key key
      else ret tt
  end.

Definition cleanOldChecks : Promise unit :=
  t <- Date_now ;;
  let oneHourAgo := t - 3600000 in
  keys <- list_keys "queue:" ;;
  for_of keys (cleanOldChecks_body oneHourAgo).

(** ** Rate limiting of the quality-check runner *)

Definition getRateLimitState : Promise RateLimitState.t :=
  state <- get_rate_limit ;;
  match state with
  | None =>
      t <- Date_now ;;
      ret (RateLimitState.mk 0 0 0 t)
  | Some s => ret s
  end.

Definition updateRateLimitState (state : RateLimitState.t) : Promise unit :=
  put_rate_limit state.

Definition too_many_requests : Exn :=
  Error "Rate limit exceeded: Too many requests per minute".
Definition too_many_input_tokens : Exn :=
  Error "Rate limit exceeded: Too many input tokens per minute".
Definition too_many_output_tokens : Exn :=
  Error "Rate limit exceeded: Too many output tokens per minute".

(** The [if (now - state.timestamp >= 60000) { .. }] block. *)
Definition reset_if_elapsed (now : Z) (state : RateLimitState.t)
  : RateLimitState.t :=
  if 60000 <=? now - RateLimitState.timestamp state
  then RateLimitState.mk 0 0 0 now
  else state.

Definition checkRateLimit (tokenCount : Z) : Promise unit :=
  state <- getRateLimitState ;;
  now <- Date_now ;;
  let state := reset_if_elapsed now state in
  if RATE_LIMITS.requestsPerMinute <=? RateLimitState.requestCount state
  then throw too_many_requests
  else if RATE_LIMITS.inputTokensPerMinute
            <=? RateLimitState.inputTokens state + tokenCount
  then throw too_many_input_tokens
  else
    updateRateLimitState
      (RateLimitState.mk (RateLimitState.requestCount state + 1)
                         (RateLimitState.inputTokens state + tokenCount)
                         (RateLimitState.outputTokens state)
                         (RateLimitState.timestamp state)).

(** The output accounting that ends [validateWithOpenRouter] (from
    [const state = await getRateLimitState(env)] to
    [await updateRateLimitState(state, env)]); the specification calls it
    [recordOutput]. *)
Definition recordOutput (outputTokensThisMinute : Z) : Promise unit :=
  state <- getRateLimitState ;;
  let state :=
    RateLimitState.mk (RateLimitState.requestCount state)
                      (RateLimitState.inputTokens state)
                      (RateLimitState.outputTokens state
                       + outputTokensThisMinute)
                      (RateLimitState.timestamp state) in
  if RATE_LIMITS.outputTokensPerMinute <=? RateLimitState.outputTokens state
  then throw too_many_output_tokens
  else updateRateLimitState state.

(** The error kinds of the specification, read off the thrown message. *)
Definition RateLimitExceeded (e : Exn) : bool :=
  match e with
  | Error message => String.prefix "Rate limit exceeded" message
  | TypeError _ => false
  end.

Definition NotFound (e : Exn) : bool :=
  match e with
  | Error message =>
      String.eqb message "QueueManager: Check not found in queue"
  | TypeError _ => false
  end.

(** ** Statements of the specification that the code does not meet as
    written; each is refuted below at a concrete world and restated. *)

Definition terminal (status : string) : Prop :=
  status = "completed" \/ status = "failed".

(** "[updateCheckStatus] fails with NotFound if and only if no record
    exists; when one exists it sets the status and, when a result argument
    is supplied, the result field, and persists the record." *)
Definition transition_as_stated : Prop :=
  forall (w : World) (job : PullRequestJob.t) (s : QueuedCheck.Status)
         (result : option string),
    ((exists e w', updateCheckStatus job s result w = (Throw e, w')
                   /\ NotFound e = true)
     <-> queue_docs (PR_STATE w) !! getQueueKey job = None) /\
    (forall c, queue_docs (PR_STATE w) !! getQueueKey job = Some c ->
       exists c' w',
         updateCheckStatus job s result w = (Return tt, w') /\
         queue_docs (PR_STATE w') !! getQueueKey job = Some c' /\
         QueuedCheck.status c' = QueuedCheck.text s /\
         (forall r, result = Some r -> QueuedCheck.result c' = Some r)).

(** "[recordOutput] adds the estimate to [outputTokens], fails with
    RateLimitExceeded when the new total is 2,000 or more, and persists the
    updated counter whether or not it fails, so the stored [outputTokens] is
    afterwards the old value plus the estimate." *)
Definition recordOutput_as_stated : Prop :=
  forall (w : World) (st : RateLimitState.t) (estimate : Z),
    rate_limit_doc (PR_STATE w) = Some st ->
    exists r w' st',
      recordOutput estimate w = (r, w') /\
      (2000 <= RateLimitState.outputTokens st + estimate ->
       exists e, r = Throw e /\ RateLimitExceeded e = true) /\
      rate_limit_doc (PR_STATE w') = Some st' /\
      RateLimitState.outputTokens st'
      = RateLimitState.outputTokens st + estimate.

(** ** Worlds the examples run in *)

Definition acme_job : PullRequestJob.t :=
  PullRequestJob.mk "acme/repo" 42 (Some 7).

Definition acme_record (timestamp : Z) (status : string) : QueuedCheck.t :=
  QueuedCheck.mk "acme/repo" 42 (Some 7) timestamp status None.

(** A world whose clock stands at [t], holding the given documents. *)
Definition world_at (t : Z) (docs : gmap string QueuedCheck.t)
    (counter : option RateLimitState.t) : World :=
  mkWorld (mkKV docs counter) [] (fun _ => t) 0.

(** A check that is being processed, enqueued 10 ms ago. *)
Definition processing_world : World :=
  world_at 1000 {[ "queue:acme/repo:42" := acme_record 990 "processing" ]}
           None.

(** A record 900 s old whose status is outside the enum. *)
Definition queued_world : World :=
  world_at 900000 {[ "queue:acme/repo:42" := acme_record 0 "queued" ]} None.

(** A counter with its five requests used, in a window that has elapsed. *)
Definition exhausted_world : World :=
  world_at 70000 ∅ (Some (RateLimitState.mk 5 9000 100 0)).

(** A counter 500 output tokens short of the limit. *)
Definition near_limit_world : World :=
  world_at 5000 ∅ (Some (RateLimitState.mk 1 100 1500 0)).

(** A world whose clock advances by [step] at every reading. *)
Definition world_ticking (t step : Z) (docs : gmap string QueuedCheck.t)
    (counter : option RateLimitState.t) : World :=
  mkWorld (mkKV docs counter) [] (fun n => t + step * Z.of_nat n) 0.

(** [for (const t of ts) await checkRateLimit(t)] *)
Definition reserve_all (tokenCounts : list Z) : Promise unit :=
  for_of tokenCounts checkRateLimit.

(** The counter a call starts from: the stored one, or a zero counter
    stamped with the current instant when none is stored. *)
Definition loaded_counter (w : World) : RateLimitState.t :=
  match rate_limit_doc (PR_STATE w) with
  | Some st => st
  | None => RateLimitState.mk 0 0 0 (now w)
  end.

(** A fresh window: no request and no input token counted yet. *)
Definition fresh_window (w : World) : Prop :=
  RateLimitState.requestCount (loaded_counter w) = 0 /\
  RateLimitState.inputTokens (loaded_counter w) = 0.

Definition window_start (w : World) : Z :=
  RateLimitState.timestamp (loaded_counter w).

(** The clock readings [getRateLimitState] makes: one, to stamp the zero
    counter, when none is stored. *)
Definition stamp_reads (w : World) : nat :=
  match rate_limit_doc (PR_STATE w) with
  | Some _ => 0
  | None => 1
  end.

(** The clock readings that the next [calls] calls of [checkRateLimit] make
    all fall inside the current window. *)
Definition same_window (calls : nat) (w : World) : Prop :=
  forall n : nat,
    (reads w <= n < reads w + stamp_reads w + calls)%nat ->
    clock w n - window_start w < 60000.

Definition total (tokenCounts : list Z) : Z := foldr Z.add 0 tokenCounts.

(** The running total of the estimates, started at [acc], stays below
    [limit] after each of them. *)
Fixpoint running_total_below (limit acc : Z) (tokenCounts : list Z) : Prop :=
  match tokenCounts with
  | [] => True
  | t :: rest => acc + t < limit /\ running_total_below limit (acc + t) rest
  end.

(** ** Sequences of calls *)

(** [for (const [status, result] of steps)
       await updateCheckStatus(job, status, result)] *)
Definition transitions (job : PullRequestJob.t)
    (steps : list (QueuedCheck.Status * option string)) : Promise unit :=
  for_of steps (fun step => updateCheckStatus job step.1 step.2).

(** The status a record ends with after [steps]: that of the last one. *)
Definition final_status (initial : string)
    (steps : list (QueuedCheck.Status * option string)) : string :=
  foldl (fun _ step => QueuedCheck.text step.1) initial steps.

(** The result a record ends with after [steps]: the last result that is
    neither absent nor empty, the initial one when there is none. *)
Definition final_result (initial : option string)
    (steps : list (QueuedCheck.Status * option string)) : option string :=
  foldl (fun acc step => if truthy step.2 then step.2 else acc) initial steps.

(** A call on the rate limiter. *)
Inductive RateCall : Type :=
  | Reserve (tokenCount : Z)
  | RecordOutput (estimate : Z).

Definition rate_call (c : RateCall) : Promise unit :=
  match c with
  | Reserve tokenCount => checkRateLimit tokenCount
  | RecordOutput estimate => recordOutput estimate
  end.

Definition call_estimate (c : RateCall) : Z :=
  match c with
  | Reserve tokenCount => tokenCount
  | RecordOutput estimate => estimate
  end.

(** The world a sequence of calls leaves, each call made whether or not
    the one before it threw. *)
Definition after_calls (calls : list RateCall) (w : World) : World :=
  foldl (fun w c => snd (rate_call c w)) w calls.

Definition counter_in_bounds (st : RateLimitState.t) : Prop :=
  0 <= RateLimitState.requestCount st <= 5 /\
  0 <= RateLimitState.inputTokens st < 10000 /\
  0 <= RateLimitState.outputTokens st < 2000.

Definition stored_counter_in_bounds (w : World) : Prop :=
  match rate_limit_doc (PR_STATE w) with
  | Some st => counter_in_bounds st
  | None => True
  end.

(** ** Texts whose characters are inspected

    The texts above are only stored, compared and concatenated, and are kept
    as [string]s.  The runner measures the article and takes the model's
    answer apart ([length], [includes], [split], [trim], [startsWith],
    [substring]); those texts are JavaScript strings proper, sequences of
    UTF-16 code units. *)

Abbreviation JSString := (list N).

(** An ASCII literal as a JavaScript string. *)
Definition js (literal : string) : JSString :=
  map N_of_ascii (list_ascii_of_string literal).
Arguments js : simpl never.

(** [s.startsWith(prefix)] *)
Fixpoint startsWith (s prefix : JSString) : bool :=
  match prefix, s with
  | [], _ => true
  | p :: prefix', c :: s' => N.eqb c p && startsWith s' prefix'
  | _ :: _, [] => false
  end.

(** [s.includes(needle)] *)
Fixpoint includes (s needle : JSString) : bool :=
  startsWith s needle
  || match s with
     | [] => false
     | _ :: s' => includes s' needle
     end.

(** The code units [trim] strips: WhiteSpace (TAB, VT, FF, SP, NBSP, ZWNBSP
    and the space separators) and LineTerminator (LF, CR, LS, PS). *)
Definition isWhiteSpace (c : N) : bool :=
  existsb (N.eqb c)
    [9; 10; 11; 12; 13; 32; 160; 5760; 8192; 8193; 8194; 8195; 8196; 8197;
     8198; 8199; 8200; 8201; 8202; 8232; 8233; 8239; 8287; 12288; 65279]%N.

Fixpoint trimStart (s : JSString) : JSString :=
  match s with
  | c :: s' => if isWhiteSpace c then trimStart s' else s
  | [] => []
  end.

Definition trimEnd (s : JSString) : JSString := rev (trimStart (rev s)).

(** [s.trim()] *)
Definition trim (s : JSString) : JSString := trimEnd (trimStart s).

(** [s.split(sep)] for a separator of one code unit. *)
Fixpoint split (sep : N) (s : JSString) : list JSString :=
  match s with
  | [] => [[]]
  | c :: s' =>
      if N.eqb c sep then [] :: split sep s'
      else match split sep s' with
           | piece :: pieces => (c :: piece) :: pieces
           | [] => [[c]]
           end
  end.

(** [parts.join(sep)] *)
Fixpoint join (sep : JSString) (parts : list JSString) : JSString :=
  match parts with
  | [] => []
  | [part] => part
  | part :: rest => part ++ sep ++ join sep rest
  end.

(** [Math.ceil(text.length / 4)] *)
Definition estimateTokenCount (text : JSString) : Z :=
  Math_ceil_div (Z.of_nat (length text)) 4.

Module QualityCheckResult.
Record t : Type := mk {
  passed : bool;
  details : JSString;
  suggestions : option (list JSString)
}.
End QualityCheckResult.

(** What the request to OpenRouter comes to: [fetch] rejects, or resolves to
    a response with a status and whatever [response.text()] and
    [response.json()] would give.  The [json] is read as far as the code
    reads it, [result.choices?.[0]?.message?.content]: [None] when a link of
    that chain is missing. *)
Inductive Reply : Type :=
  | Rejected (e : Exn)
  | Response (status : Z) (text : Completion string)
             (json : Completion (option JSString)).

(** [response.ok] *)
Definition ok (status : Z) : bool := (200 <=? status) && (status <=? 299).

Definition api_error (status : Z) (errorText : string) : Exn :=
  Error ("OpenRouter API error: " +:+ Number_toString status +:+ " - "
         +:+ errorText).

Definition invalid_structure : Exn :=
  Error "Invalid response structure from OpenRouter API".

(** The lines of the answer that are bullets, without their first two
    code units. *)
Definition analysis_suggestions (analysis : JSString) : list JSString :=
  map (fun line => drop 2 (trim line))
      (List.filter (fun line => startsWith (trim line) (js "-"))
                   (split 10 analysis)).

Section OpenRouter.

(** [String.prototype.toLowerCase], which follows the Unicode case tables,
    is taken as given. *)
Variable toLowerCase : JSString -> JSString.

Definition analysis_passed (analysis : JSString) : bool :=
  includes (toLowerCase analysis) (js "pass").

Definition validateWithOpenRouter (content : JSString) (reply : Reply)
  : Promise QualityCheckResult.t :=
  let inputTokenCount := estimateTokenCount content in
  checkRateLimit inputTokenCount ;;;
  match reply with
  | Rejected e => throw e
  | Response status text json =>
      if negb (ok status) then
        match text with
        | Return errorText => throw (api_error status errorText)
        | Throw e => throw e
        end
      else
        match json with
        | Throw e => throw e
        | Return None | Return (Some []) => throw invalid_structure
        | Return (Some analysis) =>
            let outputTokensThisMinute := estimateTokenCount analysis in
            let passed := analysis_passed analysis in
            let suggestions := analysis_suggestions analysis in
            recordOutput outputTokensThisMinute ;;;
            ret (QualityCheckResult.mk
                   passed analysis
                   (if (0 <? length suggestions)%nat then Some suggestions
                    else None))
        end
  end.

End OpenRouter.

(** ASCII lower-casing of one code unit. *)
Definition ascii_lower (c : N) : N :=
  if ((65 <=? c) && (c <=? 90))%N then (c + 32)%N else c.

Definition is_ascii (s : JSString) : Prop := Forall (fun c => (c < 128)%N) s.

(** ** The earlier runner ([src/services/qualityChecks.ts]) *)

Module Legacy.

Definition requiredSections : list JSString := [js "# "; js "## "; js "### "].

Definition validateMarkdownStructure (content : JSString)
  : QualityCheckResult.t :=
  let missingStructure :=
    List.filter (fun section => negb (includes content section))
                requiredSections in
  QualityCheckResult.mk
    (length missingStructure =? 0)%nat
    (if (length missingStructure =? 0)%nat
     then js "Article structure meets requirements"
     else js "Missing required sections: "
          ++ join (js ", ") missingStructure)
    (if (0 <? length missingStructure)%nat
     then Some [js "Add proper heading hierarchy using #, ##, and ###"]
     else None).

End Legacy.

(** A line of an answer: prose, or a bullet written [- item]. *)
Inductive Line : Type :=
  | Prose (text : JSString)
  | Bullet (item : JSString).

Definition render_line (l : Line) : JSString :=
  match l with
  | Prose text => text
  | Bullet item => js "- " ++ item
  end.

Definition bullets (lines : list Line) : list JSString :=
  flat_map (fun l => match l with
                     | Prose _ => []
                     | Bullet item => [item]
                     end) lines.

(** No line holds a line feed, and prose does not begin, after trimming,
    with a hyphen. *)
Definition plain_line (l : Line) : Prop :=
  match l with
  | Prose text => (10%N ∉ text) /\ startsWith (trim text) (js "-") = false
  | Bullet item => 10%N ∉ item
  end.

(** ** Webhook signatures ([utils/webhookVerification.ts]) *)

Definition hex_digits : list ascii :=
  ["0"; "1"; "2"; "3"; "4"; "5"; "6"; "7"; "8"; "9";
   "a"; "b"; "c"; "d"; "e"; "f"]%char.

Definition hex_digit (d : N) : ascii := nth (N.to_nat d) hex_digits "0"%char.

(** [b.toString(16)] for an element of a [Uint8Array]. *)
Definition toString16 (b : Byte.byte) : string :=
  let n := Byte.to_N b in
  if (n <? 16)%N then String (hex_digit n) EmptyString
  else String (hex_digit (n / 16)) (String (hex_digit (n mod 16)) EmptyString).

(** [s.padStart(targetLength, pad)] for a pad of one character. *)
Definition padStart (targetLength : nat) (pad : ascii) (s : string) : string :=
  string_of_list_ascii (repeat pad (targetLength - String.length s)) +:+ s.

(** [Array.from(bytes).map((b) => b.toString(16).padStart(2, "0")).join("")] *)
Definition hex (bytes : list Byte.byte) : string :=
  String.concat "" (map (fun b => padStart 2 "0" (toString16 b)) bytes).

(** The value of a hexadecimal digit in lower case. *)
Definition hex_value (c : ascii) : option N :=
  match list_find (fun d => d = c) hex_digits with
  | Some (i, _) => Some (N.of_nat i)
  | None => None
  end.

(** The byte two lower-case hexadecimal digits stand for. *)
Definition unhex (hi lo : ascii) : option Byte.byte :=
  match hex_value hi, hex_value lo with
  | Some h, Some l => Byte.of_N (16 * h + l)
  | _, _ => None
  end.

(** An awaited value that touches neither the store nor the clock. *)
Definition settled {A} (c : Completion A) : Promise A := fun w => (c, w).

Section Webhook.

(** [crypto.subtle.importKey] of the UTF-8 bytes of the secret as an
    HMAC-SHA-256 key followed by [crypto.subtle.sign] of the UTF-8 bytes of
    the payload: the MAC, or a rejection. *)
Variable HMAC_SHA256 : string -> string -> Completion (list Byte.byte).

Definition verifyGitHubWebhook (payload signature secret : string)
  : Promise bool :=
  signedMessage <- settled (HMAC_SHA256 secret payload) ;;
  let expectedSignature := "sha256=" +:+ hex signedMessage in
  ret (String.eqb expectedSignature signature).

End Webhook.

(** ** Rendering the results as a comment *)

(** [xs.forEach((x, index) => { comment = body comment index x })], the
    indices starting at [index]. *)
Fixpoint forEach_from {A} (index : nat) (xs : list A)
    (body : JSString -> nat -> A -> JSString) (comment : JSString)
  : JSString :=
  match xs with
  | [] => comment
  | x :: rest => forEach_from (S index) rest body (body comment index x)
  end.

(** [`${index + 1}`] *)
Definition ordinal (index : nat) : JSString :=
  js (Number_toString (Z.of_nat index + 1)).

(** The code units of the signs used in the comments: U+2705, U+274C,
    U+1F50D and U+1F4A1. *)
Definition check_mark : JSString := [9989%N].
Definition cross_mark : JSString := [10060%N].
Definition magnifier : JSString := [55357%N; 56589%N].
Definition light_bulb : JSString := [55357%N; 56481%N].

Definition LF : JSString := [10%N].

(** [suggestions.forEach((suggestion) => { comment += `- ${suggestion}\n` })] *)
Definition append_suggestions (comment : JSString)
    (suggestions : list JSString) : JSString :=
  fold_left (fun comment suggestion => comment ++ js "- " ++ suggestion ++ LF)
            suggestions comment.

(** The body of the [forEach] of [formatResults] (the handler's file). *)
Definition formatResults_check (comment : JSString) (index : nat)
    (result : QualityCheckResult.t) : JSString :=
  let comment := comment ++ js "## Check " ++ ordinal index ++ LF ++ LF in
  let comment :=
    if QualityCheckResult.passed result
    then comment ++ js "> " ++ check_mark ++ js " **Status**: PASS" ++ LF ++ LF
    else comment ++ js "> " ++ cross_mark ++ js " **Status**: FAIL" ++ LF ++ LF
  in
  let comment :=
    comment ++ js "**Details**:" ++ LF ++ QualityCheckResult.details result
            ++ LF ++ LF in
  match QualityCheckResult.suggestions result with
  | Some (suggestion :: suggestions) =>
      let comment :=
        comment ++ js "**" ++ light_bulb ++ js " Suggestions**:" ++ LF in
      let comment :=
        append_suggestions comment (suggestion :: suggestions) in
      comment ++ LF
  | Some [] | None => comment
  end.

Definition formatResults (results : list QualityCheckResult.t) : JSString :=
  let comment :=
    js "# " ++ magnifier ++ js " Article Quality Check Results" ++ LF ++ LF in
  let comment := forEach_from 0 results formatResults_check comment in
  let comment := comment ++ js "---" ++ LF in
  comment ++ js "_Powered by DNI Article Checker_".

(** The body of the [forEach] of [formatResultsComment]
    ([src/services/github.ts]). *)
Definition formatResultsComment_check (comment : JSString) (index : nat)
    (result : QualityCheckResult.t) : JSString :=
  let checkEmoji :=
    if QualityCheckResult.passed result then check_mark else cross_mark in
  let comment :=
    comment ++ js "## Check " ++ ordinal index ++ js " " ++ checkEmoji
            ++ LF ++ LF in
  let comment := comment ++ QualityCheckResult.details result ++ LF ++ LF in
  match QualityCheckResult.suggestions result with
  | Some (suggestion :: suggestions) =>
      let comment := comment ++ js "### Suggestions" ++ LF ++ LF in
      let comment :=
        append_suggestions comment (suggestion :: suggestions) in
      comment ++ LF
  | Some [] | None => comment
  end.

Definition formatResultsComment (results : list QualityCheckResult.t)
  : JSString :=
  let overallPassed := forallb QualityCheckResult.passed results in
  let emoji := if overallPassed then check_mark else cross_mark in
  let comment := js "# Article Review Results " ++ emoji ++ LF ++ LF in
  let comment :=
    comment ++ js "**Overall Status**: "
            ++ (if overallPassed then js "Passed" else js "Changes Required")
            ++ LF ++ LF in
  let comment := forEach_from 0 results formatResultsComment_check comment in
  let comment := comment ++ js "---" ++ LF in
  let comment :=
    comment
    ++ js "_This review was performed automatically by the DNI Article Checker bot._"
    ++ LF in
  comment
  ++ js "_For issues or feedback, please open an issue in the repository._".

(** ** The earlier worker ([src/index.ts]): webhook intake and queue *)

Module LegacyWorker.

Module PullRequestJob.
Record t : Type := mk {
  prNumber : Z;
  repository : string;
  sha : option string;
  attempt : option Z
}.
End PullRequestJob.

(** [PR_QUEUE] as the handlers use it: the messages sent and the messages
    acknowledged, oldest first.  The queue is available: [send] and [ack]
    do not fail. *)
Record Queue : Type := mkQueue {
  sent : list PullRequestJob.t;
  acked : list PullRequestJob.t
}.

(** [message.body.attempt || 0] *)
Definition attempt_or_0 (job : PullRequestJob.t) : Z :=
  match PullRequestJob.attempt job with
  | Some a => a
  | None => 0
  end.

(** What the [catch] block sends: [{...message.body, attempt: .. + 1}], or
    nothing once three attempts are counted. *)
Definition retry (job : PullRequestJob.t) : option PullRequestJob.t :=
  if attempt_or_0 job <? 3 then
    Some (PullRequestJob.mk (PullRequestJob.prNumber job)
                            (PullRequestJob.repository job)
                            (PullRequestJob.sha job)
                            (Some (attempt_or_0 job + 1)))
  else None.

Section Queue.

(** The [try] block calls the runner, posts the comment and stores the
    results; it is taken here as one computation, over whatever state those
    calls touch, that returns or throws. *)
Context {S : Type}.
Variable process : PullRequestJob.t -> S -> Completion unit * S.



End Queue.

(** A job and every job sent again after it, when each delivery fails. *)
Fixpoint deliveries (fuel : nat) (job : PullRequestJob.t)
  : list PullRequestJob.t :=
  match fuel with
  | O => []
  | S fuel =>
      job :: match retry job with
             | Some again => deliveries fuel again
             | None => []
             end
  end.

(** A webhook payload as far as the handler reads it, with GitHub's types
    for what is present; each link may be missing.  [comment_body] is
    [payload.comment?.body], [repository_full_name] is [None] for a payload
    without [repository], whose [full_name] cannot be read. *)
Record PullRequestRef : Type := mkPullRequestRef {
  head_sha : option string
}.

Record Issue : Type := mkIssue {
  number : Z;
  pull_request : option PullRequestRef
}.

Record Payload : Type := mkPayload {
  issue : option Issue;
  comment_body : option JSString;
  repository_full_name : option string
}.

(** A request: its method, its headers under their lower-case names, and
    what [request.json()] gives ([None] for the JSON value [null]). *)
Record Request : Type := mkRequest {
  method : string;
  headers : gmap string string;
  json : Completion (option Payload)
}.

Record Response : Type := mkResponse {
  body : string;
  status : Z
}.

Definition REQUIRED_HEADERS : list string :=
  ["x-github-event"; "x-hub-signature-256"; "x-github-delivery"].

Section Fetch.

(** [verifyGitHubSignature] of [utils/github.ts], which serialises the
    payload, computes its HMAC and compares it with the header; it answers
    [false] on any error and never throws. *)
Variable verifyGitHubSignature :
  option Payload -> option string -> string -> bool.

(** The part of [fetch] after the signature check: the event test, the
    send and the answer; [None] is an exception, which the handler
    catches. *)
Definition fetch_dispatch (request : Request) (payload : option Payload)
    (q : Queue) : option (Response * Queue) :=
  if bool_decide (headers request !! "x-github-event" = Some "issue_comment")
  then
    match payload with
    | None => None
    | Some payload =>
        match issue payload with
        | Some issue =>
            match pull_request issue, comment_body payload with
            | Some pr, Some body =>
                if includes body (js "/articlecheck") then
                  match repository_full_name payload with
                  | Some full_name =>
                      Some (mkResponse "Article check queued" 202,
                            mkQueue
                              (sent q ++
                               [PullRequestJob.mk (number issue) full_name
                                                  (head_sha pr) None])
                              (acked q))
                  | None => None
                  end
                else Some (mkResponse "Event not supported" 422, q)
            | _, _ => Some (mkResponse "Event not supported" 422, q)
            end
        | None => Some (mkResponse "Event not supported" 422, q)
        end
    end
  else Some (mkResponse "Event not supported" 422, q).

Definition fetch (request : Request) (WEBHOOK_SECRET : string) (q : Queue)
  : Response * Queue :=
  if negb (String.eqb (method request) "POST") then
    (mkResponse "Method not allowed" 405, q)
  else
    match list_find (fun header => headers request !! header = None)
                    REQUIRED_HEADERS with
    | Some (_, header) =>
        (mkResponse ("Missing " +:+ header +:+ " header") 400, q)
    | None =>
        match json request with
        | Return payload =>
            let signature := headers request !! "x-hub-signature-256" in
            if negb (verifyGitHubSignature payload signature WEBHOOK_SECRET)
            then (mkResponse "Invalid signature" 401, q)
            else
              match fetch_dispatch request payload q with
              | Some answer => answer
              | None => (mkResponse "Internal server error" 500, q)
              end
        | Throw _ => (mkResponse "Internal server error" 500, q)
        end
    end.

End Fetch.

End LegacyWorker.

(** * Properties *)

(** ** Arithmetic and keys *)

Lemma Math_ceil_div_bounds (x d : Z) :
  0 < d ->
  d * (Math_ceil_div x d - 1) < x <= d * Math_ceil_div x d.
Proof.
  intros Hd. unfold Math_ceil_div.
  pose proof (Z.div_mod (- x) d) as Hdm.
  pose proof (Z.mod_pos_bound (- x) d Hd) as Hr.
  nia.
Qed.

Lemma Math_ceil_div_unique (x d q : Z) :
  0 < d -> d * (q - 1) < x <= d * q -> Math_ceil_div x d = q.
Proof.
  intros Hd Hq.
  pose proof (Math_ceil_div_bounds x d Hd) as Hc.
  nia.
Qed.

Lemma append_assoc (s1 s2 s3 : string) :
  (s1 +:+ s2) +:+ s3 = s1 +:+ s2 +:+ s3.
Proof.
  induction s1 as [| a s1 IH]; [reflexivity |].
  change (String a ((s1 +:+ s2) +:+ s3) = String a (s1 +:+ s2 +:+ s3)).
  now rewrite IH.
Qed.

Lemma not_terminal_true (status : string) :
  status <> "completed" -> status <> "failed" -> not_terminal status = true.
Proof.
  intros Hc Hf. unfold not_terminal.
  apply String.eqb_neq in Hc, Hf. now rewrite Hc, Hf.
Qed.

Lemma not_terminal_false (status : string) :
  terminal status -> not_terminal status = false.
Proof. now intros [-> | ->]. Qed.

Lemma getQueueKey_prefix (job : PullRequestJob.t) :
  String.prefix "queue:" (getQueueKey job) = true.
Proof.
  unfold getQueueKey.
  destruct (PullRequestJob.repository job); reflexivity.
Qed.

(** ** Admission *)

Lemma elapse_elapse (n m : nat) (w : World) :
  elapse n (elapse m w) = elapse (n + m) w.
Proof. unfold elapse; cbn. f_equal. lia. Qed.

Lemma enqueueCheck_blocked (w : World) (job : PullRequestJob.t)
    (c : QueuedCheck.t) :
  queue_docs (PR_STATE w) !! getQueueKey job = Some c ->
  not_terminal (QueuedCheck.status c) = true ->
  enqueueCheck job w
  = (Return (Enqueued.mk (in_progress_message (QueuedCheck.status c)) false),
     elapse 1 w).
Proof.
  intros Hget Hnt.
  unfold enqueueCheck, bind, get_check. rewrite Hget.
  unfold enqueueCheck_guard, bind, Date_now. now rewrite Hnt.
Qed.

Lemma enqueueCheck_cooling (w : World) (job : PullRequestJob.t)
    (c : QueuedCheck.t) :
  queue_docs (PR_STATE w) !! getQueueKey job = Some c ->
  terminal (QueuedCheck.status c) ->
  now w - QueuedCheck.timestamp c < 300000 ->
  enqueueCheck job w
  = (Return (Enqueued.mk
               (cooldown_message
                  (Math_ceil_div
                     (300000 - (now w - QueuedCheck.timestamp c)) 1000))
               false),
     elapse 1 w).
Proof.
  intros Hget Hterm Hage.
  unfold enqueueCheck, bind, get_check. rewrite Hget.
  unfold enqueueCheck_guard, bind, Date_now.
  rewrite (not_terminal_false _ Hterm).
  change cooldownPeriod with 300000.
  destruct (Z.ltb_spec (now w - QueuedCheck.timestamp c) 300000); [done | lia].
Qed.

Lemma enqueueCheck_enqueues (w : World) (job : PullRequestJob.t) :
  let stamp :=
    match queue_docs (PR_STATE w) !! getQueueKey job with
    | Some _ => clock w (S (reads w))
    | None => now w
    end in
  let newCheck :=
    QueuedCheck.mk (PullRequestJob.repository job)
                   (PullRequestJob.prNumber job)
                   (PullRequestJob.commentId job) stamp "pending" None in
  match queue_docs (PR_STATE w) !! getQueueKey job with
  | Some c =>
      terminal (QueuedCheck.status c) /\
      300000 <= now w - QueuedCheck.timestamp c
  | None => True
  end ->
  enqueueCheck job w
  = (Return (Enqueued.mk started_message true),
     mkWorld (mkKV (<[getQueueKey job := newCheck]> (queue_docs (PR_STATE w)))
                   (rate_limit_doc (PR_STATE w)))
             (PutCheck (getQueueKey job) newCheck :: writes w)
             (clock w)
             (match queue_docs (PR_STATE w) !! getQueueKey job with
              | Some _ => 2 + reads w
              | None => 1 + reads w
              end)%nat).
Proof.
  intros stamp newCheck. subst stamp newCheck.
  unfold enqueueCheck, bind, get_check.
  destruct (queue_docs (PR_STATE w) !! getQueueKey job) as [c|] eqn:Hget.
  - intros [Hterm Hage].
    unfold enqueueCheck_guard, bind, Date_now.
    rewrite (not_terminal_false _ Hterm).
    change cooldownPeriod with 300000.
    destruct (Z.ltb_spec (now w - QueuedCheck.timestamp c) 300000); [lia |].
    reflexivity.
  - intros _. reflexivity.
Qed.

(** C4.  For every job whose key holds a record with status pending or
    processing, [enqueueCheck] returns [isNew = false] with a message that
    contains the record's current status, and writes nothing: the namespace,
    the write log and the stored record (timestamp included) are as before. *)
Theorem enqueueCheck_in_progress (w : World) (job : PullRequestJob.t)
    (c : QueuedCheck.t) :
  queue_docs (PR_STATE w) !! getQueueKey job = Some c ->
  QueuedCheck.status c = "pending" \/ QueuedCheck.status c = "processing" ->
  exists (message : string) (w' : World),
    enqueueCheck job w = (Return (Enqueued.mk message false), w') /\
    (exists before after,
        message = before +:+ QueuedCheck.status c +:+ after) /\
    PR_STATE w' = PR_STATE w /\
    writes w' = writes w /\
    queue_docs (PR_STATE w') !! getQueueKey job = Some c.
Proof.
  intros Hget Hst.
  exists (in_progress_message (QueuedCheck.status c)), (elapse 1 w).
  split; [| split].
  - apply enqueueCheck_blocked; [exact Hget |].
    destruct Hst as [-> | ->]; reflexivity.
  - eexists _, "`". unfold in_progress_message.
    rewrite <- !append_assoc. reflexivity.
  - auto.
Qed.

Lemma enqueueCheck_in_progress_witness :
  exists (message : string) (w' : World),
    enqueueCheck acme_job processing_world
    = (Return (Enqueued.mk message false), w') /\
    (exists before after, message = before +:+ "processing" +:+ after) /\
    PR_STATE w'
    = mkKV {[ "queue:acme/repo:42" := acme_record 990 "processing" ]} None /\
    writes w' = [] /\
    queue_docs (PR_STATE w') !! "queue:acme/repo:42"
    = Some (acme_record 990 "processing").
Proof.
  apply (enqueueCheck_in_progress
           processing_world acme_job (acme_record 990 "processing")).
  - vm_compute. reflexivity.
  - right. reflexivity.
Defined.





(** ** Transition *)

Lemma updateCheckStatus_absent (w : World) (job : PullRequestJob.t)
    (s : QueuedCheck.Status) (result : option string) :
  queue_docs (PR_STATE w) !! getQueueKey job = None ->
  updateCheckStatus job s result w = (Throw not_found, w).
Proof.
  intros Hget. unfold updateCheckStatus, bind, get_check. now rewrite Hget.
Qed.

Lemma updateCheckStatus_found (w : World) (job : PullRequestJob.t)
    (s : QueuedCheck.Status) (result : option string) (c : QueuedCheck.t) :
  queue_docs (PR_STATE w) !! getQueueKey job = Some c ->
  let c' :=
    QueuedCheck.mk (QueuedCheck.repository c) (QueuedCheck.prNumber c)
                   (QueuedCheck.commentId c) (QueuedCheck.timestamp c)
                   (QueuedCheck.text s)
                   (if truthy result then result else QueuedCheck.result c) in
  updateCheckStatus job s result w
  = (Return tt,
     mkWorld (mkKV (<[getQueueKey job := c']> (queue_docs (PR_STATE w)))
                   (rate_limit_doc (PR_STATE w)))
             (PutCheck (getQueueKey job) c' :: writes w)
             (clock w) (reads w)).
Proof.
  intros Hget c'. unfold updateCheckStatus, bind, get_check. now rewrite Hget.
Qed.

(** C5, as stated, fails: an empty string is a supplied result, yet the
    guard [if (result)] skips it and the result field stays absent. *)
Lemma transition_empty_result_not_set :
  queue_docs (PR_STATE processing_world) !! getQueueKey acme_job
  = Some (acme_record 990 "processing") /\
  queue_docs
    (PR_STATE
       (snd (updateCheckStatus acme_job QueuedCheck.completed (Some "")
               processing_world)))
    !! getQueueKey acme_job
  = Some (acme_record 990 "completed") /\
  QueuedCheck.result (acme_record 990 "completed") = None /\
  ~ transition_as_stated.
Proof.
  split; [vm_compute; reflexivity |].
  split; [vm_compute; reflexivity |]. split; [reflexivity |].
  intros Hclaim.
  destruct (Hclaim processing_world acme_job QueuedCheck.completed (Some ""))
    as [_ Hset].
  destruct (Hset (acme_record 990 "processing"))
    as (c' & w' & Hrun & Hget & _ & Hres); [vm_compute; reflexivity |].
  specialize (Hres "" eq_refl).
  apply (f_equal snd) in Hrun. cbn [snd] in Hrun. subst w'.
  vm_compute in Hget. injection Hget as <-. discriminate Hres.
Qed.

(** C5, amended.  [updateCheckStatus] fails with the NotFound error if and
    only if no record exists for the job's key (and then writes nothing);
    when a record exists it returns, and the record it persists under the
    key has the given new status and, when a non-empty result is supplied,
    that result; with no result or an empty one the stored result field is
    left as it was. *)
Theorem updateCheckStatus_transition (w : World) (job : PullRequestJob.t)
    (s : QueuedCheck.Status) (result : option string) :
  ((exists e w', updateCheckStatus job s result w = (Throw e, w')
                 /\ NotFound e = true)
   <-> queue_docs (PR_STATE w) !! getQueueKey job = None) /\
  (queue_docs (PR_STATE w) !! getQueueKey job = None ->
   updateCheckStatus job s result w = (Throw not_found, w)) /\
  (forall c, queue_docs (PR_STATE w) !! getQueueKey job = Some c ->
     exists c' w',
       updateCheckStatus job s result w = (Return tt, w') /\
       queue_docs (PR_STATE w') !! getQueueKey job = Some c' /\
       writes w' = PutCheck (getQueueKey job) c' :: writes w /\
       QueuedCheck.status c' = QueuedCheck.text s /\
       (forall r, result = Some r -> r <> "" ->
                  QueuedCheck.result c' = Some r) /\
       (result = None \/ result = Some "" ->
        QueuedCheck.result c' = QueuedCheck.result c)).
Proof.
  split; [| split].
  - split.
    + intros (e & w' & Hrun & _).
      destruct (queue_docs (PR_STATE w) !! getQueueKey job) as [c|] eqn:Hget;
        [| reflexivity].
      rewrite (updateCheckStatus_found w job s result c Hget) in Hrun.
      discriminate Hrun.
    + intros Hget. exists not_found, w.
      split; [now apply updateCheckStatus_absent | reflexivity].
  - apply updateCheckStatus_absent.
  - intros c Hget.
    pose proof (updateCheckStatus_found w job s result c Hget) as Hrun.
    cbv zeta in Hrun. eexists _, _. split; [exact Hrun |]. cbn.
    rewrite lookup_insert_eq. repeat split.
    + intros r -> Hr. destruct r; [contradiction | reflexivity].
    + intros [-> | ->]; reflexivity.
Qed.

Lemma updateCheckStatus_transition_witness :
  exists c' w',
    updateCheckStatus acme_job QueuedCheck.completed (Some "LGTM")
      processing_world
    = (Return tt, w') /\
    queue_docs (PR_STATE w') !! "queue:acme/repo:42" = Some c' /\
    QueuedCheck.status c' = "completed" /\
    QueuedCheck.result c' = Some "LGTM".
Proof.
  destruct (updateCheckStatus_transition
              processing_world acme_job QueuedCheck.completed (Some "LGTM"))
    as (_ & _ & Hset).
  destruct (Hset (acme_record 990 "processing"))
    as (c' & w' & Hrun & Hget & _ & Hst & Hres & _);
    [vm_compute; reflexivity |].
  exists c', w'. split; [exact Hrun |]. split; [exact Hget |].
  split; [exact Hst |]. apply Hres; [reflexivity | discriminate].
Defined.

(** C6.  For every existing record and every call of [updateCheckStatus],
    the record persisted under the key keeps the repository, prNumber,
    commentId and timestamp it had: the clock is not even read, so the
    timestamp is the one set at admission.  Every other key and the
    rate-limit counter are untouched. *)
Theorem updateCheckStatus_frame (w : World) (job : PullRequestJob.t)
    (s : QueuedCheck.Status) (result : option string) (c : QueuedCheck.t) :
  queue_docs (PR_STATE w) !! getQueueKey job = Some c ->
  exists c' w',
    updateCheckStatus job s result w = (Return tt, w') /\
    queue_docs (PR_STATE w') !! getQueueKey job = Some c' /\
    QueuedCheck.timestamp c' = QueuedCheck.timestamp c /\
    QueuedCheck.repository c' = QueuedCheck.repository c /\
    QueuedCheck.prNumber c' = QueuedCheck.prNumber c /\
    QueuedCheck.commentId c' = QueuedCheck.commentId c /\
    reads w' = reads w /\
    (forall key, key <> getQueueKey job ->
       queue_docs (PR_STATE w') !! key = queue_docs (PR_STATE w) !! key) /\
    rate_limit_doc (PR_STATE w') = rate_limit_doc (PR_STATE w).
Proof.
  intros Hget.
  pose proof (updateCheckStatus_found w job s result c Hget) as Hrun.
  cbv zeta in Hrun. eexists _, _. split; [exact Hrun |]. cbn.
  rewrite lookup_insert_eq. repeat split.
  intros key Hne. now rewrite lookup_insert_ne.
Qed.

Lemma updateCheckStatus_frame_witness :
  exists c' w',
    updateCheckStatus acme_job QueuedCheck.failed (Some "timeout")
      (world_at 500000
         {[ "queue:acme/repo:42" := acme_record 990 "processing" ]} None)
    = (Return tt, w') /\
    queue_docs (PR_STATE w') !! "queue:acme/repo:42" = Some c' /\
    QueuedCheck.timestamp c' = 990.
Proof.
  destruct (updateCheckStatus_frame
              (world_at 500000
                 {[ "queue:acme/repo:42" := acme_record 990 "processing" ]}
                 None)
              acme_job QueuedCheck.failed (Some "timeout")
              (acme_record 990 "processing"))
    as (c' & w' & Hrun & Hget & Hts & _); [vm_compute; reflexivity |].
  exists c', w'. auto.
Defined.

(** ** Sweep *)

Lemma cleanOldChecks_body_found (oneHourAgo : Z) (key : string) (w : World)
    (c : QueuedCheck.t) :
  queue_docs (PR_STATE w) !! key = Some c ->
  cleanOldChecks_body oneHourAgo key w
  = if QueuedCheck.timestamp c <? oneHourAgo then delete_key key w
    else (Return tt, w).
Proof.
  intros Hget. unfold cleanOldChecks_body, bind, get_check. rewrite Hget.
  now destruct (QueuedCheck.timestamp c <? oneHourAgo).
Qed.

(** The loop over the listed keys: it never throws as long as the keys are
    distinct and present when it starts, it deletes exactly the stale ones
    among them, and a delete is the only kind of write it makes. *)
Lemma cleanOldChecks_loop (oneHourAgo : Z) (keys : list string) :
  forall w : World,
    NoDup keys ->
    (forall k, k ∈ keys -> is_Some (queue_docs (PR_STATE w) !! k)) ->
    exists (w' : World) (log : list KVWrite),
      for_of keys (cleanOldChecks_body oneHourAgo) w = (Return tt, w') /\
      rate_limit_doc (PR_STATE w') = rate_limit_doc (PR_STATE w) /\
      clock w' = clock w /\ reads w' = reads w /\
      writes w' = log ++ writes w /\
      (forall op, op ∈ log ->
         exists k c, op = Delete k /\ k ∈ keys /\
                     queue_docs (PR_STATE w) !! k = Some c /\
                     QueuedCheck.timestamp c < oneHourAgo) /\
      (forall k,
         queue_docs (PR_STATE w') !! k
         = match queue_docs (PR_STATE w) !! k with
           | Some c =>
               if decide (k ∈ keys) then
                 if QueuedCheck.timestamp c <? oneHourAgo then None
                 else Some c
               else Some c
           | None => None
           end).
Proof.
  induction keys as [| k0 ks IH]; intros w Hnodup Hpresent.
  - exists w, []. repeat split; try done.
    + intros op Hop. inversion Hop.
    + intros k. destruct (queue_docs (PR_STATE w) !! k); [| done].
      case_decide as Hin; [inversion Hin | done].
  - apply NoDup_cons in Hnodup as [Hfresh Hnodup].
    destruct (Hpresent k0) as [c0 Hc0]; [left |].
    cbn [for_of]. unfold bind at 1.
    rewrite (cleanOldChecks_body_found _ _ _ _ Hc0).
    destruct (Z.ltb_spec (QueuedCheck.timestamp c0) oneHourAgo) as [Hold | Hnew].
    + (* stale: the key is deleted, the rest of the loop runs after it *)
      cbn [delete_key].
      set (w1 := mkWorld _ _ _ _).
      destruct (IH w1 Hnodup) as (w' & log & Hrun & Hrate & Hclk & Hrd & Hlog
                                  & Hdel & Hdocs).
      { intros k Hk. subst w1; cbn.
        rewrite lookup_delete_ne; [| intros ->; contradiction].
        apply Hpresent. now right. }
      exists w', (log ++ [Delete k0]).
      split; [exact Hrun |]. split; [exact Hrate |].
      split; [exact Hclk |]. split; [exact Hrd |].
      split; [rewrite Hlog; subst w1; cbn; now rewrite <- app_assoc |].
      split.
      * intros op [Hop | Hop]%elem_of_app.
        -- destruct (Hdel op Hop) as (k & c & -> & Hk & Hget & Hc).
           exists k, c. split; [done |]. split; [now right |].
           split; [| done]. subst w1; cbn in Hget.
           rewrite lookup_delete_ne in Hget; [done |].
           intros ->; contradiction.
        -- apply list_elem_of_singleton in Hop as ->.
           exists k0, c0. repeat split; [left | done | done].
      * intros k. rewrite Hdocs. subst w1; cbn.
        destruct (decide (k = k0)) as [-> | Hne].
        -- rewrite lookup_delete_eq, Hc0.
           rewrite decide_True by left.
           now destruct (Z.ltb_spec (QueuedCheck.timestamp c0) oneHourAgo);
             [| lia].
        -- rewrite lookup_delete_ne by done.
           destruct (queue_docs (PR_STATE w) !! k); [| done].
           destruct (decide (k ∈ ks)) as [Hin | Hout].
           ++ rewrite decide_True by now right. reflexivity.
           ++ rewrite decide_False; [reflexivity |].
              intros [? | ?]%elem_of_cons; done.
    + (* fresh enough: nothing happens at this key *)
      destruct (IH w Hnodup) as (w' & log & Hrun & Hrate & Hclk & Hrd & Hlog
                                 & Hdel & Hdocs).
      { intros k Hk. apply Hpresent. now right. }
      exists w', log. repeat split; try done.
      * intros op Hop.
        destruct (Hdel op Hop) as (k & c & -> & Hk & Hget & Hc).
        exists k, c. repeat split; [now right | done | done].
      * intros k. rewrite Hdocs.
        destruct (queue_docs (PR_STATE w) !! k) as [c |] eqn:Hk; [| done].
        destruct (decide (k = k0)) as [-> | Hne].
        -- rewrite decide_False by done. rewrite decide_True by left.
           assert (c = c0) as -> by congruence.
           now destruct (Z.ltb_spec (QueuedCheck.timestamp c0) oneHourAgo);
             [lia |].
        -- destruct (decide (k ∈ ks)) as [Hin | Hout].
           ++ rewrite decide_True by now right. reflexivity.
           ++ rewrite decide_False; [reflexivity |].
              intros [? | ?]%elem_of_cons; done.
Qed.

Lemma list_keys_spec (prefix : string) (w : World) :
  exists keys : list string,
    list_keys prefix w = (Return keys, w) /\
    NoDup keys /\
    (forall k, k ∈ keys <-> Is_true (String.prefix prefix k)
                            /\ is_Some (queue_docs (PR_STATE w) !! k)).
Proof.
  eexists. split; [reflexivity |]. split.
  - apply NoDup_filter, NoDup_fst_map_to_list.
  - intros k. rewrite list_elem_of_filter, list_elem_of_fmap. split.
    + intros [Hp ([k' c] & -> & Hin)]. split; [done |].
      apply elem_of_map_to_list in Hin. now exists c.
    + intros [Hp [c Hc]]. split; [done |].
      exists (k, c). split; [done |]. now apply elem_of_map_to_list.
Qed.

(** What one sweep does to the whole namespace. *)
Lemma cleanOldChecks_sweeps (w : World) :
  exists (w' : World) (log : list KVWrite),
    cleanOldChecks w = (Return tt, w') /\
    rate_limit_doc (PR_STATE w') = rate_limit_doc (PR_STATE w) /\
    clock w' = clock w /\ reads w' = S (reads w) /\
    writes w' = log ++ writes w /\
    (forall op, op ∈ log ->
       exists k c, op = Delete k /\
                   Is_true (String.prefix "queue:" k) /\
                   queue_docs (PR_STATE w) !! k = Some c /\
                   QueuedCheck.timestamp c < now w - 3600000) /\
    (forall k,
       queue_docs (PR_STATE w') !! k
       = match queue_docs (PR_STATE w) !! k with
         | Some c =>
             if String.prefix "queue:" k
                && (QueuedCheck.timestamp c <? now w - 3600000)
             then None else Some c
         | None => None
         end).
Proof.
  unfold cleanOldChecks, bind at 1, Date_now.
  unfold bind at 1.
  destruct (list_keys_spec "queue:" (elapse 1 w))
    as (keys & -> & Hnodup & Hkeys).
  destruct (cleanOldChecks_loop (now w - 3600000) keys (elapse 1 w) Hnodup)
    as (w' & log & Hrun & Hrate & Hclk & Hrd & Hlog & Hdel & Hdocs).
  { intros k Hk. now apply Hkeys in Hk as [_ Hk]. }
  exists w', log. repeat split; try done.
  - intros op Hop. destruct (Hdel op Hop) as (k & c & -> & Hk & Hget & Hc).
    exists k, c. repeat split; try done. now apply Hkeys in Hk as [Hk _].
  - intros k. rewrite Hdocs. cbn.
    destruct (queue_docs (PR_STATE w) !! k) as [c |] eqn:Hk; [| done].
    case_decide as Hin.
    + apply Hkeys in Hin as [Hp _].
      destruct (String.prefix "queue:" k); [reflexivity | destruct Hp].
    + destruct (String.prefix "queue:" k) eqn:Hp; [| done].
      exfalso. apply Hin, Hkeys. rewrite Hp. split; [exact I |].
      cbn. now rewrite Hk.
Qed.

(** C7.  [cleanOldChecks] returns, and it deletes every record under the
    prefix ["queue:"] whose timestamp is more than 3,600,000 ms before the
    clock reading, whatever its status; it keeps, unchanged, every record
    whose timestamp is within that threshold and every key outside the
    prefix; deletes of stale records are the only writes it makes. *)
Theorem cleanOldChecks_deletes_stale (w : World) :
  exists (w' : World) (log : list KVWrite),
    cleanOldChecks w = (Return tt, w') /\
    (forall key c,
       queue_docs (PR_STATE w) !! key = Some c ->
       Is_true (String.prefix "queue:" key) ->
       QueuedCheck.timestamp c < now w - 3600000 ->
       queue_docs (PR_STATE w') !! key = None) /\
    (forall key c,
       queue_docs (PR_STATE w) !! key = Some c ->
       now w - 3600000 <= QueuedCheck.timestamp c ->
       queue_docs (PR_STATE w') !! key = Some c) /\
    (forall key,
       ~ Is_true (String.prefix "queue:" key) ->
       queue_docs (PR_STATE w') !! key = queue_docs (PR_STATE w) !! key) /\
    (forall key,
       queue_docs (PR_STATE w) !! key = None ->
       queue_docs (PR_STATE w') !! key = None) /\
    rate_limit_doc (PR_STATE w') = rate_limit_doc (PR_STATE w) /\
    writes w' = log ++ writes w /\
    (forall op, op ∈ log ->
       exists key c, op = Delete key /\
                     queue_docs (PR_STATE w) !! key = Some c /\
                     QueuedCheck.timestamp c < now w - 3600000).
Proof.
  destruct (cleanOldChecks_sweeps w)
    as (w' & log & Hrun & Hrate & _ & _ & Hlog & Hdel & Hdocs).
  exists w', log. split; [exact Hrun |].
  split; [| split; [| split; [| split]]].
  - intros key c Hget Hp Hold. rewrite Hdocs, Hget.
    destruct (String.prefix "queue:" key); [cbn | destruct Hp].
    now destruct (Z.ltb_spec (QueuedCheck.timestamp c) (now w - 3600000));
      [| lia].
  - intros key c Hget Hnew. rewrite Hdocs, Hget.
    destruct (Z.ltb_spec (QueuedCheck.timestamp c) (now w - 3600000));
      [lia |].
    now rewrite andb_false_r.
  - intros key Hp. rewrite Hdocs.
    destruct (queue_docs (PR_STATE w) !! key); [| done].
    destruct (String.prefix "queue:" key); [| done].
    exfalso. now apply Hp.
  - intros key Hget. now rewrite Hdocs, Hget.
  - split; [exact Hrate |]. split; [exact Hlog |].
    intros op Hop. destruct (Hdel op Hop) as (k & c & -> & _ & Hget & Hc).
    now exists k, c.
Qed.

Lemma cleanOldChecks_deletes_stale_witness :
  exists w',
    cleanOldChecks
      (world_at 4000000
         {[ "queue:acme/repo:42" := acme_record 399999 "processing" ]} None)
    = (Return tt, w') /\
    queue_docs (PR_STATE w') !! "queue:acme/repo:42" = None.
Proof.
  destruct (cleanOldChecks_deletes_stale
              (world_at 4000000
                 {[ "queue:acme/repo:42" := acme_record 399999 "processing" ]}
                 None))
    as (w' & log & Hrun & Hstale & _).
  exists w'. split; [exact Hrun |].
  apply (Hstale "queue:acme/repo:42" (acme_record 399999 "processing")).
  - vm_compute. reflexivity.
  - vm_compute. exact I.
  - vm_compute. reflexivity.
Defined.

(** C9.  For every stored record whose status is any string other than
    ["completed"] or ["failed"], inside the four-status enum or not,
    [enqueueCheck] returns [isNew = false] with the in-progress message and
    writes nothing, whatever the record's timestamp and the clock say (the
    cooldown comparison is not reached), and it keeps doing so at every
    later clock reading.  A sweep leaves the record in place while its
    timestamp is within one hour of the clock reading, and the key stays
    blocked; once the timestamp is more than one hour old the sweep deletes
    it, and the next [enqueueCheck] enqueues the job. *)
Theorem enqueueCheck_blocks_until_swept (w : World) (job : PullRequestJob.t)
    (c : QueuedCheck.t) :
  queue_docs (PR_STATE w) !! getQueueKey job = Some c ->
  QueuedCheck.status c <> "completed" ->
  QueuedCheck.status c <> "failed" ->
  let blocked :=
    Enqueued.mk (in_progress_message (QueuedCheck.status c)) false in
  enqueueCheck job w = (Return blocked, elapse 1 w) /\
  PR_STATE (elapse 1 w) = PR_STATE w /\
  writes (elapse 1 w) = writes w /\
  (forall n : nat,
     enqueueCheck job (elapse n w) = (Return blocked, elapse (S n) w)) /\
  exists swept : World,
    cleanOldChecks w = (Return tt, swept) /\
    (now w - 3600000 <= QueuedCheck.timestamp c ->
     queue_docs (PR_STATE swept) !! getQueueKey job = Some c /\
     enqueueCheck job swept = (Return blocked, elapse 1 swept)) /\
    (QueuedCheck.timestamp c < now w - 3600000 ->
     queue_docs (PR_STATE swept) !! getQueueKey job = None /\
     exists w', enqueueCheck job swept
                = (Return (Enqueued.mk started_message true), w')).
Proof.
  intros Hget Hc Hf blocked.
  pose proof (not_terminal_true _ Hc Hf) as Hnt.
  split; [now apply enqueueCheck_blocked |].
  split; [reflexivity |]. split; [reflexivity |]. split.
  - intros n.
    rewrite (enqueueCheck_blocked (elapse n w) job c Hget Hnt).
    now rewrite elapse_elapse.
  - destruct (cleanOldChecks_sweeps w)
      as (swept & log & Hrun & _ & _ & _ & _ & _ & Hdocs).
    exists swept. split; [exact Hrun |].
    specialize (Hdocs (getQueueKey job)).
    rewrite Hget, getQueueKey_prefix in Hdocs. cbn [andb] in Hdocs.
    destruct (Z.ltb_spec (QueuedCheck.timestamp c) (now w - 3600000)).
    + split; [lia |]. intros _. split; [exact Hdocs |].
      pose proof (enqueueCheck_enqueues swept job) as Hnew.
      cbv zeta in Hnew. rewrite Hdocs in Hnew.
      eexists. exact (Hnew I).
    + split; [| lia]. intros _. split; [exact Hdocs |].
      now apply enqueueCheck_blocked.
Qed.

Lemma enqueueCheck_blocks_until_swept_witness :
  enqueueCheck acme_job queued_world
  = (Return (Enqueued.mk (in_progress_message "queued") false),
     elapse 1 queued_world).
Proof.
  apply (enqueueCheck_blocks_until_swept
           queued_world acme_job (acme_record 0 "queued")).
  - vm_compute. reflexivity.
  - discriminate.
  - discriminate.
Defined.

(** ** Rate limiting *)

(** The three ways a call of [checkRateLimit] can end. *)
Lemma checkRateLimit_cases (w : World) (tokenCount : Z) :
  let w1 :=
    match rate_limit_doc (PR_STATE w) with
    | Some _ => elapse 1 w
    | None => elapse 2 w
    end in
  let t :=
    match rate_limit_doc (PR_STATE w) with
    | Some _ => now w
    | None => clock w (S (reads w))
    end in
  let state := reset_if_elapsed t (loaded_counter w) in
  checkRateLimit tokenCount w
  = if 5 <=? RateLimitState.requestCount state
    then (Throw too_many_requests, w1)
    else if 10000 <=? RateLimitState.inputTokens state + tokenCount
    then (Throw too_many_input_tokens, w1)
    else
      let state' :=
        RateLimitState.mk (RateLimitState.requestCount state + 1)
                          (RateLimitState.inputTokens state + tokenCount)
                          (RateLimitState.outputTokens state)
                          (RateLimitState.timestamp state) in
      (Return tt,
       mkWorld (mkKV (queue_docs (PR_STATE w)) (Some state'))
               (PutRateLimit state' :: writes w) (clock w) (reads w1)).
Proof.
  unfold checkRateLimit, getRateLimitState, loaded_counter,
    bind, get_rate_limit, Date_now, updateRateLimitState, put_rate_limit.
  change RATE_LIMITS.requestsPerMinute with 5.
  change RATE_LIMITS.inputTokensPerMinute with 10000.
  destruct (rate_limit_doc (PR_STATE w)) as [st |]; cbn.
  - destruct (5 <=? _); [reflexivity |]. now destruct (10000 <=? _).
  - destruct (5 <=? _); [reflexivity |]. now destruct (10000 <=? _).
Qed.

Lemma reset_if_elapsed_within (t : Z) (st : RateLimitState.t) :
  t - RateLimitState.timestamp st < 60000 -> reset_if_elapsed t st = st.
Proof.
  intros Ht. unfold reset_if_elapsed.
  destruct (Z.leb_spec 60000 (t - RateLimitState.timestamp st)); [lia | done].
Qed.

Lemma reset_if_elapsed_after (t : Z) (st : RateLimitState.t) :
  60000 <= t - RateLimitState.timestamp st ->
  reset_if_elapsed t st = RateLimitState.mk 0 0 0 t.
Proof.
  intros Ht. unfold reset_if_elapsed.
  destruct (Z.leb_spec 60000 (t - RateLimitState.timestamp st)); [done | lia].
Qed.

Lemma loaded_counter_stored (w : World) (st : RateLimitState.t) :
  rate_limit_doc (PR_STATE w) = Some st -> loaded_counter w = st.
Proof. intros H. unfold loaded_counter. now rewrite H. Qed.

(** One successful call inside the window. *)
Lemma checkRateLimit_within (w : World) (tokenCount : Z) :
  same_window 1 w ->
  RateLimitState.requestCount (loaded_counter w) < 5 ->
  RateLimitState.inputTokens (loaded_counter w) + tokenCount < 10000 ->
  exists w',
    checkRateLimit tokenCount w = (Return tt, w') /\
    rate_limit_doc (PR_STATE w')
    = Some (RateLimitState.mk
              (RateLimitState.requestCount (loaded_counter w) + 1)
              (RateLimitState.inputTokens (loaded_counter w) + tokenCount)
              (RateLimitState.outputTokens (loaded_counter w))
              (RateLimitState.timestamp (loaded_counter w))) /\
    queue_docs (PR_STATE w') = queue_docs (PR_STATE w) /\
    clock w' = clock w /\
    reads w' = (reads w + stamp_reads w + 1)%nat.
Proof.
  intros Hwin Hreq Htok.
  pose proof (checkRateLimit_cases w tokenCount) as Hrun. cbv zeta in Hrun.
  rewrite reset_if_elapsed_within in Hrun.
  - destruct (Z.leb_spec 5 (RateLimitState.requestCount (loaded_counter w)));
      [lia |].
    destruct (Z.leb_spec 10000
                (RateLimitState.inputTokens (loaded_counter w) + tokenCount));
      [lia |].
    eexists. split; [exact Hrun |]. cbn. repeat split.
    unfold stamp_reads. destruct (rate_limit_doc (PR_STATE w)); cbn; lia.
  - unfold same_window, stamp_reads in Hwin.
    destruct (rate_limit_doc (PR_STATE w)); apply Hwin; cbn; lia.
Qed.

(** Any number of calls on a stored counter that fit in the window and in
    its request and token budget all succeed, and the counter adds them
    up. *)
Lemma reserve_all_within (tokenCounts : list Z) :
  forall (w : World) (st : RateLimitState.t),
    rate_limit_doc (PR_STATE w) = Some st ->
    (forall n : nat,
       (reads w <= n < reads w + length tokenCounts)%nat ->
       clock w n - RateLimitState.timestamp st < 60000) ->
    RateLimitState.requestCount st + Z.of_nat (length tokenCounts) <= 5 ->
    running_total_below 10000 (RateLimitState.inputTokens st) tokenCounts ->
    exists w',
      reserve_all tokenCounts w = (Return tt, w') /\
      rate_limit_doc (PR_STATE w')
      = Some (RateLimitState.mk
                (RateLimitState.requestCount st
                 + Z.of_nat (length tokenCounts))
                (RateLimitState.inputTokens st + total tokenCounts)
                (RateLimitState.outputTokens st)
                (RateLimitState.timestamp st)) /\
      queue_docs (PR_STATE w') = queue_docs (PR_STATE w) /\
      clock w' = clock w /\
      reads w' = (reads w + length tokenCounts)%nat.
Proof.
  induction tokenCounts as [| t rest IH]; intros w st Hst Hwin Hreq Hsum.
  - exists w. split; [reflexivity |]. rewrite Hst.
    split; [| repeat split; cbn [length]; lia].
    destruct st; unfold total; cbn. do 2 f_equal; lia.
  - destruct Hsum as [Ht Hrest]. cbn [length] in Hreq, Hwin.
    pose proof (loaded_counter_stored _ _ Hst) as Hload.
    destruct (checkRateLimit_within w t)
      as (w1 & Hrun & Hst1 & Hq & Hclk & Hrd).
    { intros n Hn. unfold window_start, stamp_reads in *.
      rewrite Hst in Hn. rewrite Hload. apply Hwin. lia. }
    { rewrite Hload. lia. }
    { now rewrite Hload. }
    rewrite Hload in Hst1. unfold stamp_reads in Hrd. rewrite Hst in Hrd.
    destruct (IH w1 _ Hst1) as (w' & Hrun' & Hst' & Hq' & Hclk' & Hrd').
    { intros n Hn. rewrite Hclk. cbn. apply Hwin. lia. }
    { cbn. lia. }
    { exact Hrest. }
    exists w'. split.
    { unfold reserve_all in *. cbn [for_of]. unfold bind. now rewrite Hrun. }
    split.
    { rewrite Hst'. cbn [RateLimitState.requestCount
        RateLimitState.inputTokens RateLimitState.outputTokens
        RateLimitState.timestamp length].
      change (total (t :: rest)) with (t + total rest).
      do 2 f_equal; lia. }
    split; [congruence |]. split; [congruence |]. cbn [length]. lia.
Qed.

(** C8.  Starting from a fresh window, five consecutive calls of
    [checkRateLimit] whose clock readings stay inside the window and whose
    running input total stays below 10,000 all succeed, leaving a counter of
    5 requests and the summed tokens; a sixth call in that window fails with
    RateLimitExceeded.  A call whose clock reading is 60,000 ms or more past
    the stored window start, with an estimate below 10,000, succeeds and
    persists a counter that reflects that call alone: one request, its
    tokens, no output tokens, window start at the reading. *)
Theorem checkRateLimit_window :
  (forall (w : World) (tokenCounts : list Z) (sixth : Z),
     fresh_window w ->
     same_window 6 w ->
     length tokenCounts = 5%nat ->
     running_total_below 10000 0 tokenCounts ->
     exists w5 w6,
       reserve_all tokenCounts w = (Return tt, w5) /\
       rate_limit_doc (PR_STATE w5)
       = Some (RateLimitState.mk
                 5 (total tokenCounts)
                 (RateLimitState.outputTokens (loaded_counter w))
                 (window_start w)) /\
       checkRateLimit sixth w5 = (Throw too_many_requests, w6) /\
       RateLimitExceeded too_many_requests = true /\
       PR_STATE w6 = PR_STATE w5 /\ writes w6 = writes w5) /\
  (forall (w : World) (st : RateLimitState.t) (tokenCount : Z),
     rate_limit_doc (PR_STATE w) = Some st ->
     60000 <= now w - RateLimitState.timestamp st ->
     tokenCount < 10000 ->
     exists w',
       checkRateLimit tokenCount w = (Return tt, w') /\
       rate_limit_doc (PR_STATE w')
       = Some (RateLimitState.mk 1 tokenCount 0 (now w))).
Proof.
  split.
  - intros w tokenCounts sixth [Hreq Htok] Hwin Hlen Hsum.
    destruct tokenCounts as [| t1 rest]; [discriminate Hlen |].
    injection Hlen as Hlen. destruct Hsum as [Ht1 Hrest].
    (* the first call, which may have to stamp a zero counter *)
    destruct (checkRateLimit_within w t1)
      as (w1 & Hrun1 & Hst1 & _ & Hclk1 & Hrd1).
    { intros n Hn. apply Hwin. lia. }
    { lia. }
    { lia. }
    rewrite Hreq, Htok, !Z.add_0_l in Hst1.
    (* the next four, on the counter it stored *)
    destruct (reserve_all_within rest w1 _ Hst1)
      as (w5 & Hrun4 & Hst5 & _ & Hclk5 & Hrd5).
    { intros n Hn. rewrite Hclk1. cbn. apply Hwin. lia. }
    { cbn. rewrite Hlen. lia. }
    { cbn. exact Hrest. }
    cbn [RateLimitState.requestCount RateLimitState.inputTokens
         RateLimitState.outputTokens RateLimitState.timestamp] in Hst5.
    rewrite Hlen in Hst5. change (1 + Z.of_nat 4) with 5 in Hst5.
    (* the sixth: still inside the window, with five requests counted *)
    pose proof (checkRateLimit_cases w5 sixth) as Hsixth.
    cbv zeta in Hsixth.
    rewrite Hst5, (loaded_counter_stored _ _ Hst5) in Hsixth.
    rewrite reset_if_elapsed_within in Hsixth.
    2:{ cbn. unfold now. rewrite Hclk5, Hclk1. apply Hwin. lia. }
    cbn [RateLimitState.requestCount] in Hsixth.
    change (5 <=? 5) with true in Hsixth. cbv iota in Hsixth.
    exists w5, (elapse 1 w5).
    split.
    { unfold reserve_all in *. cbn [for_of]. unfold bind. now rewrite Hrun1. }
    split; [exact Hst5 |].
    split; [exact Hsixth |]. repeat split.
  - intros w st tokenCount Hst Hage Htok.
    pose proof (checkRateLimit_cases w tokenCount) as Hrun.
    cbv zeta in Hrun. rewrite Hst in Hrun.
    rewrite (loaded_counter_stored _ _ Hst) in Hrun.
    rewrite reset_if_elapsed_after in Hrun by exact Hage. cbn in Hrun.
    rewrite !Z.add_0_l in Hrun.
    destruct (Z.leb_spec 10000 tokenCount); [lia |].
    eexists. split; [exact Hrun |]. reflexivity.
Qed.

Lemma checkRateLimit_window_witness :
  (exists w5 w6,
     reserve_all [100; 200; 300; 400; 500] (world_ticking 1000 2000 ∅ None)
     = (Return tt, w5) /\
     rate_limit_doc (PR_STATE w5)
     = Some (RateLimitState.mk 5 1500 0 1000) /\
     checkRateLimit 1 w5 = (Throw too_many_requests, w6)) /\
  (exists w',
     checkRateLimit 40
       (world_at 61000 ∅ (Some (RateLimitState.mk 5 1500 700 1000)))
     = (Return tt, w') /\
     rate_limit_doc (PR_STATE w') = Some (RateLimitState.mk 1 40 0 61000)).
Proof.
  destruct checkRateLimit_window as [Hfive Hreset]. split.
  - destruct (Hfive (world_ticking 1000 2000 ∅ None)
                    [100; 200; 300; 400; 500] 1)
      as (w5 & w6 & Hrun & Hst & Hsixth & _).
    + split; reflexivity.
    + intros n Hn. unfold window_start, world_ticking in *. cbn in *. lia.
    + reflexivity.
    + cbn. lia.
    + exists w5, w6. split; [exact Hrun |]. split; [| exact Hsixth].
      rewrite Hst. reflexivity.
  - apply (Hreset (world_at 61000 ∅ (Some (RateLimitState.mk 5 1500 700 1000)))
                  (RateLimitState.mk 5 1500 700 1000) 40).
    + reflexivity.
    + cbn. lia.
    + lia.
Defined.

(** C10.  Whenever [checkRateLimit] fails, the failure is a
    RateLimitExceeded error and nothing was written: the namespace, and so
    the stored counter with its window start, is what it was before the
    call, also when the window had elapsed and the counter was reset in
    memory. *)
Theorem checkRateLimit_failure_writes_nothing (w : World) (tokenCount : Z)
    (e : Exn) (w' : World) :
  checkRateLimit tokenCount w = (Throw e, w') ->
  RateLimitExceeded e = true /\
  PR_STATE w' = PR_STATE w /\
  rate_limit_doc (PR_STATE w') = rate_limit_doc (PR_STATE w) /\
  writes w' = writes w.
Proof.
  intros Hrun. rewrite checkRateLimit_cases in Hrun. cbv zeta in Hrun.
  destruct (5 <=? _) in Hrun.
  - injection Hrun as <- <-.
    destruct (rate_limit_doc (PR_STATE w)) eqn:Hst; cbn; rewrite ?Hst;
      repeat split.
  - destruct (10000 <=? _) in Hrun; [| discriminate Hrun].
    injection Hrun as <- <-.
    destruct (rate_limit_doc (PR_STATE w)) eqn:Hst; cbn; rewrite ?Hst;
      repeat split.
Qed.

Lemma checkRateLimit_failure_writes_nothing_witness :
  checkRateLimit 10000 exhausted_world
  = (Throw too_many_input_tokens, elapse 1 exhausted_world) /\
  rate_limit_doc (PR_STATE (elapse 1 exhausted_world))
  = Some (RateLimitState.mk 5 9000 100 0) /\
  writes (elapse 1 exhausted_world) = [].
Proof.
  assert (Hrun : checkRateLimit 10000 exhausted_world
                 = (Throw too_many_input_tokens, elapse 1 exhausted_world))
    by (vm_compute; reflexivity).
  split; [exact Hrun |].
  destruct (checkRateLimit_failure_writes_nothing
              exhausted_world 10000 _ _ Hrun)
    as (_ & _ & Hst & Hlog).
  split; [exact Hst | exact Hlog].
Defined.

(** C1, as stated, fails: with 1,500 output tokens stored, an estimate of
    600 makes the call fail, and the stored counter still says 1,500. *)
Lemma recordOutput_failure_not_persisted :
  recordOutput 600 near_limit_world
  = (Throw too_many_output_tokens, near_limit_world) /\
  rate_limit_doc (PR_STATE near_limit_world)
  = Some (RateLimitState.mk 1 100 1500 0) /\
  ~ recordOutput_as_stated.
Proof.
  split; [reflexivity |]. split; [reflexivity |].
  intros Hclaim.
  destruct (Hclaim near_limit_world (RateLimitState.mk 1 100 1500 0) 600
              eq_refl)
    as (r & w' & st' & Hrun & _ & Hst & Hout).
  assert (w' = near_limit_world) as -> by (now injection Hrun).
  injection Hst as <-. discriminate Hout.
Qed.

(** C1, amended.  [recordOutput] adds the estimate to the [outputTokens] of
    the counter it loads (the stored one, or a zero counter when none is
    stored).  When the new total is 2,000 or more it fails with
    RateLimitExceeded and writes nothing, so the stored counter is what it
    was before the call; otherwise it persists the updated counter, and the
    stored [outputTokens] is the old value plus the estimate with every
    other field as loaded. *)
Theorem recordOutput_accounting (w : World) (estimate : Z) :
  let old := loaded_counter w in
  let updated :=
    RateLimitState.mk (RateLimitState.requestCount old)
                      (RateLimitState.inputTokens old)
                      (RateLimitState.outputTokens old + estimate)
                      (RateLimitState.timestamp old) in
  (2000 <= RateLimitState.outputTokens old + estimate ->
   exists w',
     recordOutput estimate w = (Throw too_many_output_tokens, w') /\
     RateLimitExceeded too_many_output_tokens = true /\
     PR_STATE w' = PR_STATE w /\ writes w' = writes w) /\
  (RateLimitState.outputTokens old + estimate < 2000 ->
   exists w',
     recordOutput estimate w = (Return tt, w') /\
     rate_limit_doc (PR_STATE w') = Some updated /\
     queue_docs (PR_STATE w') = queue_docs (PR_STATE w) /\
     writes w' = PutRateLimit updated :: writes w).
Proof.
  intros old updated. subst old updated.
  unfold recordOutput, getRateLimitState, loaded_counter,
    bind, get_rate_limit, Date_now, updateRateLimitState, put_rate_limit.
  change RATE_LIMITS.outputTokensPerMinute with 2000.
  destruct (rate_limit_doc (PR_STATE w)) as [st |]; cbn;
    match goal with
    | |- context [2000 <=? ?x] => destruct (Z.leb_spec 2000 x)
    end;
    (split; intros Hcase; [try lia | try lia]);
    eexists; repeat split.
Qed.

Lemma recordOutput_accounting_witness :
  exists w',
    recordOutput 600 (world_at 5000 ∅ (Some (RateLimitState.mk 1 100 1300 0)))
    = (Return tt, w') /\
    rate_limit_doc (PR_STATE w') = Some (RateLimitState.mk 1 100 1900 0).
Proof.
  destruct (recordOutput_accounting
              (world_at 5000 ∅ (Some (RateLimitState.mk 1 100 1300 0))) 600)
    as [_ Hok].
  destruct Hok as (w' & Hrun & Hst & _); [cbn; lia |].
  exists w'. split; [exact Hrun | exact Hst].
Defined.

(** ** Scenarios *)

(** An absent key is enqueued; asking again at once is refused. *)
Example enqueue_twice :
  fst ((first <- enqueueCheck acme_job ;;
        second <- enqueueCheck acme_job ;;
        stored <- getQueueStatus acme_job ;;
        ret (Enqueued.isNew first, Enqueued.isNew second, stored))
         (world_ticking 1000 1 ∅ None))
  = Return (true, false, Some (acme_record 1000 "pending")).
Proof. vm_compute. reflexivity. Qed.

(** A check that failed 400 s ago is replaced. *)
Example enqueue_after_cooldown :
  fst ((r <- enqueueCheck acme_job ;;
        stored <- getQueueStatus acme_job ;;
        ret (Enqueued.isNew r, stored))
         (world_at 400000
            {[ "queue:acme/repo:42" := acme_record 0 "failed" ]} None))
  = Return (true, Some (acme_record 400000 "pending")).
Proof. vm_compute. reflexivity. Qed.

(** A transition before any enqueue is the NotFound error. *)
Example transition_before_enqueue :
  fst (updateCheckStatus acme_job QueuedCheck.processing None
         (world_at 1000 ∅ None))
  = Throw not_found.
Proof. reflexivity. Qed.

(** A sweep keeps a record exactly one hour old and drops one a millisecond
    older; the rate-limit counter is not a check record. *)
Example sweep_threshold :
  fst ((cleanOldChecks ;;;
        a <- get_check "queue:acme/repo:42" ;;
        b <- get_check "queue:acme/repo:43" ;;
        c <- get_rate_limit ;;
        ret (a, b, c))
         (world_at 3600000
            {[ "queue:acme/repo:42" := acme_record 0 "pending";
               "queue:acme/repo:43" := acme_record (-1) "pending" ]}
            (Some (RateLimitState.mk 1 2 3 (-5)))))
  = Return (Some (acme_record 0 "pending"), None,
            Some (RateLimitState.mk 1 2 3 (-5))).
Proof. vm_compute. reflexivity. Qed.

(** A failing [recordOutput] after a successful [checkRateLimit] leaves the
    counter as [checkRateLimit] stored it. *)
Example reserve_then_record :
  (r <- checkRateLimit 100 ;; recordOutput 2000) (world_at 1000 ∅ None)
  = (Throw too_many_output_tokens,
     mkWorld (mkKV ∅ (Some (RateLimitState.mk 1 100 0 1000)))
             [PutRateLimit (RateLimitState.mk 1 100 0 1000)]
             (fun _ => 1000) 2).
Proof. reflexivity. Qed.

(** * Further properties of the code *)

(** ** Keys *)

Lemma string_of_uint_no_colon (d : Decimal.uint) (before after : string) :
  NilEmpty.string_of_uint d <> before +:+ String ":" after.
Proof.
  revert before.
  induction d; intros [| a before] Heq; try discriminate Heq;
    injection Heq as _ Heq; now apply IHd in Heq.
Qed.

Lemma Number_toString_no_colon (n : Z) (before after : string) :
  Number_toString n <> before +:+ String ":" after.
Proof.
  unfold Number_toString, NilZero.string_of_int, NilZero.string_of_uint.
  destruct (Z.to_int n) as [d | d]; intros Heq.
  - destruct d; try (now apply string_of_uint_no_colon in Heq).
    destruct before as [| a [| b before]]; discriminate Heq.
  - destruct before as [| a before]; [discriminate Heq |].
    injection Heq as _ Heq.
    destruct d; try (now apply string_of_uint_no_colon in Heq).
    destruct before as [| b [| b' before]]; discriminate Heq.
Qed.

Lemma to_int_not_nil (n : Z) :
  Z.to_int n <> Decimal.Pos Decimal.Nil /\
  Z.to_int n <> Decimal.Neg Decimal.Nil.
Proof.
  pose proof (DecimalZ.to_of (Z.to_int n)) as Hnorm.
  rewrite DecimalZ.of_to in Hnorm.
  split; intros Heq; rewrite Heq in Hnorm; discriminate Hnorm.
Qed.

Lemma Number_toString_inj (n m : Z) :
  Number_toString n = Number_toString m -> n = m.
Proof.
  unfold Number_toString. intros Heq.
  apply DecimalZ.to_int_inj.
  destruct (to_int_not_nil n) as [Hn1 Hn2].
  destruct (to_int_not_nil m) as [Hm1 Hm2].
  pose proof (NilZero.isi _ Hn1 Hn2) as Hn.
  pose proof (NilZero.isi _ Hm1 Hm2) as Hm.
  rewrite Heq in Hn. congruence.
Qed.

(** Two texts that end in a colon and a colon-free tail agree only when
    their heads and tails do. *)
Lemma split_at_last_colon (a b x y : string) :
  (forall before after, x <> before +:+ String ":" after) ->
  (forall before after, y <> before +:+ String ":" after) ->
  a +:+ String ":" x = b +:+ String ":" y ->
  a = b /\ x = y.
Proof.
  intros Hx Hy. revert b.
  induction a as [| c a IH]; intros [| c' b] Heq.
  - now injection Heq.
  - injection Heq as _ Heq. now apply Hx in Heq.
  - injection Heq as _ Heq. symmetry in Heq. now apply Hy in Heq.
  - injection Heq as -> Heq. apply IH in Heq as [-> ->]. done.
Qed.

(** X1.  [getQueueKey] is injective in the repository and the PR number
    (a repository name may itself contain colons), does not depend on the
    comment id, and never produces the key of the rate-limit counter. *)
Theorem getQueueKey_inj (job job' : PullRequestJob.t) :
  (getQueueKey job = getQueueKey job' <->
   PullRequestJob.repository job = PullRequestJob.repository job' /\
   PullRequestJob.prNumber job = PullRequestJob.prNumber job') /\
  getQueueKey job <> "rate_limit".
Proof.
  split; [split |].
  - unfold getQueueKey. intros Heq.
    apply (String.app_inj "queue:") in Heq.
    apply split_at_last_colon in Heq as [Hrepo Hnum];
      try apply Number_toString_no_colon.
    split; [exact Hrepo | now apply Number_toString_inj].
  - unfold getQueueKey. now intros [-> ->].
  - unfold getQueueKey. discriminate.
Qed.

(** ** Admission, transitions and sweeps together *)

Lemma not_terminal_false_inv (status : string) :
  not_terminal status = false -> terminal status.
Proof.
  unfold not_terminal, terminal.
  destruct (String.eqb_spec status "completed") as [-> | _]; [now left |].
  destruct (String.eqb_spec status "failed") as [-> | _]; [now right |].
  discriminate.
Qed.

(** X2.  [enqueueCheck] always returns.  It answers [isNew = true] exactly
    when it wrote, and then it made one put, of a pending record under the
    job's own key; it answers [isNew = false] only for a key that held a
    record, and then it wrote nothing.  In every case all other keys and the
    rate-limit counter are as they were. *)
Theorem enqueueCheck_outcome (w : World) (job : PullRequestJob.t) :
  exists (r : Enqueued.t) (w' : World),
    enqueueCheck job w = (Return r, w') /\
    rate_limit_doc (PR_STATE w') = rate_limit_doc (PR_STATE w) /\
    (forall key, key <> getQueueKey job ->
       queue_docs (PR_STATE w') !! key = queue_docs (PR_STATE w) !! key) /\
    ((Enqueued.isNew r = true /\
      exists c, writes w' = PutCheck (getQueueKey job) c :: writes w /\
                queue_docs (PR_STATE w') !! getQueueKey job = Some c /\
                QueuedCheck.status c = "pending" /\
                QueuedCheck.result c = None) \/
     (Enqueued.isNew r = false /\
      is_Some (queue_docs (PR_STATE w) !! getQueueKey job) /\
      PR_STATE w' = PR_STATE w /\ writes w' = writes w)).
Proof.
  pose proof (enqueueCheck_enqueues w job) as Hnew. cbv zeta in Hnew.
  destruct (queue_docs (PR_STATE w) !! getQueueKey job) as [c |] eqn:Hget.
  - destruct (not_terminal (QueuedCheck.status c)) eqn:Hnt.
    + eexists _, _.
      split; [exact (enqueueCheck_blocked w job c Hget Hnt) |].
      split; [reflexivity |]. split; [reflexivity |]. right.
      repeat split. now exists c.
    + apply not_terminal_false_inv in Hnt.
      destruct (Z.lt_ge_cases (now w - QueuedCheck.timestamp c) 300000)
        as [Hage | Hage].
      * eexists _, _.
        split; [exact (enqueueCheck_cooling w job c Hget Hnt Hage) |].
        split; [reflexivity |]. split; [reflexivity |]. right.
        repeat split. now exists c.
      * eexists _, _. split; [exact (Hnew (conj Hnt Hage)) |]. cbn.
        split; [reflexivity |].
        split; [intros key Hne; now rewrite lookup_insert_ne |].
        left. split; [reflexivity |]. eexists.
        rewrite lookup_insert_eq. repeat split.
  - eexists _, _. split; [exact (Hnew I) |]. cbn.
    split; [reflexivity |].
    split; [intros key Hne; now rewrite lookup_insert_ne |].
    left. split; [reflexivity |]. eexists.
    rewrite lookup_insert_eq. repeat split.
Qed.

(** X3.  The cooldown runs from the enqueue, not from the completion.  On
    an idle key, enqueue at reading [t0], mark the check processing and then
    completed or failed: the record read back still carries [t0].  A request
    whose clock reading is [t1] is then refused with the cooldown message
    while [t1 - t0 < 300000] and enqueued anew once [t1 - t0 >= 300000],
    however many clock readings lie in between. *)
Theorem cooldown_runs_from_enqueue (w : World) (job : PullRequestJob.t)
    (s : QueuedCheck.Status) (result : option string) (n : nat) :
  queue_docs (PR_STATE w) !! getQueueKey job = None ->
  s = QueuedCheck.completed \/ s = QueuedCheck.failed ->
  let t0 := now w in
  let t1 := clock w (n + S (reads w)) in
  exists w1 w2 w3,
    enqueueCheck job w = (Return (Enqueued.mk started_message true), w1) /\
    updateCheckStatus job QueuedCheck.processing None w1 = (Return tt, w2) /\
    updateCheckStatus job s result w2 = (Return tt, w3) /\
    getQueueStatus job w3
    = (Return (Some (QueuedCheck.mk
                       (PullRequestJob.repository job)
                       (PullRequestJob.prNumber job)
                       (PullRequestJob.commentId job)
                       t0 (QueuedCheck.text s)
                       (if truthy result then result else None))),
       w3) /\
    (t1 - t0 < 300000 ->
     enqueueCheck job (elapse n w3)
     = (Return (Enqueued.mk
                  (cooldown_message
                     (Math_ceil_div (300000 - (t1 - t0)) 1000)) false),
        elapse (S n) w3)) /\
    (300000 <= t1 - t0 ->
     exists w4,
       enqueueCheck job (elapse n w3)
       = (Return (Enqueued.mk started_message true), w4)).
Proof.
  intros Hidle Hs t0 t1.
  pose proof (enqueueCheck_enqueues w job) as Hrun1. cbv zeta in Hrun1.
  rewrite Hidle in Hrun1. specialize (Hrun1 I).
  eexists _, _, _. split; [exact Hrun1 |].
  split.
  { apply updateCheckStatus_found. cbn. apply lookup_insert_eq. }
  cbn [truthy QueuedCheck.repository QueuedCheck.prNumber
       QueuedCheck.commentId QueuedCheck.timestamp QueuedCheck.status
       QueuedCheck.result].
  split.
  { apply updateCheckStatus_found. cbn. apply lookup_insert_eq. }
  cbn [QueuedCheck.repository QueuedCheck.prNumber
       QueuedCheck.commentId QueuedCheck.timestamp QueuedCheck.status
       QueuedCheck.result].
  set (final := QueuedCheck.mk _ _ _ _ _ _).
  set (w3 := mkWorld _ _ _ _).
  assert (Hget3 : queue_docs (PR_STATE w3) !! getQueueKey job = Some final).
  { subst w3. cbn. apply lookup_insert_eq. }
  assert (Hterm : terminal (QueuedCheck.status final)).
  { subst final. cbn. destruct Hs as [-> | ->]; [now left | now right]. }
  split.
  { unfold getQueueStatus, get_check. now rewrite Hget3. }
  split.
  - intros Hage.
    rewrite (enqueueCheck_cooling (elapse n w3) job final Hget3 Hterm Hage).
    now rewrite elapse_elapse.
  - intros Hage.
    pose proof (enqueueCheck_enqueues (elapse n w3) job) as Hrun4.
    cbv zeta in Hrun4.
    change (queue_docs (PR_STATE (elapse n w3)) !! getQueueKey job)
      with (queue_docs (PR_STATE w3) !! getQueueKey job) in Hrun4.
    rewrite Hget3 in Hrun4.
    eexists. exact (Hrun4 (conj Hterm Hage)).
Qed.

Lemma cooldown_runs_from_enqueue_witness :
  exists w3,
    snd ((enqueueCheck acme_job ;;;
          updateCheckStatus acme_job QueuedCheck.processing None ;;;
          updateCheckStatus acme_job QueuedCheck.completed (Some "ok"))
           (world_ticking 0 100000 ∅ None))
    = w3 /\
    enqueueCheck acme_job (elapse 1 w3)
    = (Return (Enqueued.mk (cooldown_message 100) false), elapse 2 w3).
Proof.
  destruct (cooldown_runs_from_enqueue
              (world_ticking 0 100000 ∅ None) acme_job
              QueuedCheck.completed (Some "ok") 1)
    as (w1 & w2 & w3 & Hrun1 & Hrun2 & Hrun3 & _ & Hcool & _).
  - reflexivity.
  - now left.
  - exists w3. split.
    + unfold bind. now rewrite Hrun1, Hrun2, Hrun3.
    + apply Hcool. vm_compute. reflexivity.
Defined.

(** X4.  Any sequence of transitions on an existing record succeeds and
    leaves, under the job's key, the same record with the status of the last
    transition and the last result that was neither absent nor empty (the
    record's own when there was none): a result once stored is replaced,
    never cleared.  Repository, PR number, comment id and timestamp are
    those of the record; the clock is not read, every transition makes one
    put, and other keys and the counter are untouched. *)
Theorem transitions_fold (steps : list (QueuedCheck.Status * option string)) :
  forall (w : World) (job : PullRequestJob.t) (c : QueuedCheck.t),
    queue_docs (PR_STATE w) !! getQueueKey job = Some c ->
    exists w',
      transitions job steps w = (Return tt, w') /\
      queue_docs (PR_STATE w') !! getQueueKey job
      = Some (QueuedCheck.mk
                (QueuedCheck.repository c) (QueuedCheck.prNumber c)
                (QueuedCheck.commentId c) (QueuedCheck.timestamp c)
                (final_status (QueuedCheck.status c) steps)
                (final_result (QueuedCheck.result c) steps)) /\
      (forall key, key <> getQueueKey job ->
         queue_docs (PR_STATE w') !! key = queue_docs (PR_STATE w) !! key) /\
      rate_limit_doc (PR_STATE w') = rate_limit_doc (PR_STATE w) /\
      reads w' = reads w /\
      length (writes w') = (length steps + length (writes w))%nat.
Proof.
  induction steps as [| [s r] steps IH]; intros w job c Hget.
  - exists w. split; [reflexivity |]. rewrite Hget.
    split; [now destruct c |]. repeat split.
  - pose proof (updateCheckStatus_found w job s r c Hget) as Hstep.
    cbv zeta in Hstep.
    set (c1 := QueuedCheck.mk _ _ _ _ _ _) in Hstep.
    set (w1 := mkWorld _ _ _ _) in Hstep.
    destruct (IH w1 job c1) as (w' & Hrun & Hfinal & Hother & Hrate & Hrd & Hlen).
    { subst w1. cbn. apply lookup_insert_eq. }
    exists w'. split.
    { unfold transitions in *. cbn [for_of]. unfold bind. cbn [fst snd].
      now rewrite Hstep. }
    split; [exact Hfinal |].
    split.
    { intros key Hne. rewrite (Hother key Hne). subst w1. cbn.
      now rewrite lookup_insert_ne. }
    split; [exact Hrate |]. split; [exact Hrd |].
    rewrite Hlen. subst w1. cbn. lia.
Qed.

Lemma transitions_fold_witness :
  exists w',
    transitions acme_job
      [(QueuedCheck.processing, None);
       (QueuedCheck.failed, Some "timeout");
       (QueuedCheck.completed, Some "")]
      processing_world
    = (Return tt, w') /\
    queue_docs (PR_STATE w') !! "queue:acme/repo:42"
    = Some (QueuedCheck.mk "acme/repo" 42 (Some 7) 990 "completed"
                           (Some "timeout")).
Proof.
  destruct (transitions_fold
              [(QueuedCheck.processing, None);
               (QueuedCheck.failed, Some "timeout");
               (QueuedCheck.completed, Some "")]
              processing_world acme_job (acme_record 990 "processing"))
    as (w' & Hrun & Hfinal & _).
  - vm_compute. reflexivity.
  - exists w'. split; [exact Hrun | exact Hfinal].
Defined.

(** X5.  Two sweeps in a row leave the check records one sweep would leave
    at the later of their two clock readings.  In particular a second sweep
    whose reading is not later than the first deletes nothing and writes
    nothing: the sweep is idempotent. *)
Theorem cleanOldChecks_twice (w : World) :
  let t1 := now w in
  let t2 := clock w (S (reads w)) in
  exists w1 w2,
    cleanOldChecks w = (Return tt, w1) /\
    cleanOldChecks w1 = (Return tt, w2) /\
    (forall key,
       queue_docs (PR_STATE w2) !! key
       = match queue_docs (PR_STATE w) !! key with
         | Some c =>
             if String.prefix "queue:" key
                && (QueuedCheck.timestamp c <? Z.max t1 t2 - 3600000)
             then None else Some c
         | None => None
         end) /\
    (t2 <= t1 -> PR_STATE w2 = PR_STATE w1 /\ writes w2 = writes w1).
Proof.
  intros t1 t2.
  destruct (cleanOldChecks_sweeps w)
    as (w1 & log1 & Hrun1 & Hrate1 & Hclk1 & Hrd1 & _ & _ & Hdocs1).
  destruct (cleanOldChecks_sweeps w1)
    as (w2 & log2 & Hrun2 & Hrate2 & _ & _ & Hlog2 & Hdel2 & Hdocs2).
  assert (Hnow1 : now w1 = t2).
  { unfold now. now rewrite Hclk1, Hrd1. }
  rewrite Hnow1 in Hdocs2, Hdel2. fold t1 in Hdocs1.
  exists w1, w2. split; [exact Hrun1 |]. split; [exact Hrun2 |]. split.
  - intros key. rewrite Hdocs2, Hdocs1.
    destruct (queue_docs (PR_STATE w) !! key) as [c |]; [| reflexivity].
    destruct (String.prefix "queue:" key); cbn [andb]; [| reflexivity].
    destruct (Z.ltb_spec (QueuedCheck.timestamp c) (t1 - 3600000));
      destruct (Z.ltb_spec (QueuedCheck.timestamp c) (Z.max t1 t2 - 3600000));
      try lia; try reflexivity.
    + destruct (Z.ltb_spec (QueuedCheck.timestamp c) (t2 - 3600000));
        [reflexivity | lia].
    + cbn [andb].
      destruct (Z.ltb_spec (QueuedCheck.timestamp c) (t2 - 3600000));
        [lia | reflexivity].
  - intros Hle.
    assert (Hlog : log2 = []).
    { destruct log2 as [| op log2]; [reflexivity |]. exfalso.
      destruct (Hdel2 op) as (k & c & _ & Hp & Hget & Hold); [left |].
      rewrite Hdocs1 in Hget.
      destruct (queue_docs (PR_STATE w) !! k) as [c0 |]; [| discriminate].
      destruct (String.prefix "queue:" k); [| destruct Hp]. cbn in Hget.
      destruct (Z.ltb_spec (QueuedCheck.timestamp c0) (t1 - 3600000));
        [discriminate |].
      injection Hget as ->. lia. }
    rewrite Hlog in Hlog2. split; [| exact Hlog2].
    destruct (PR_STATE w2) as [docs2 rate2] eqn:E2.
    destruct (PR_STATE w1) as [docs1 rate1] eqn:E1.
    cbn in *. f_equal; [| exact Hrate2].
    apply map_eq. intros key. rewrite Hdocs2.
    destruct (docs1 !! key) as [c |] eqn:Hk; [| reflexivity].
    destruct (String.prefix "queue:" key) eqn:Hp; [| reflexivity].
    cbn [andb].
    destruct (Z.ltb_spec (QueuedCheck.timestamp c) (t2 - 3600000));
      [| reflexivity].
    exfalso. rewrite Hdocs1 in Hk.
    destruct (queue_docs (PR_STATE w) !! key) as [c0 |]; [| discriminate].
    rewrite Hp in Hk. cbn in Hk.
    destruct (Z.ltb_spec (QueuedCheck.timestamp c0) (t1 - 3600000));
      [discriminate |].
    injection Hk as ->. lia.
Qed.

Lemma cleanOldChecks_twice_witness :
  exists w1 w2,
    cleanOldChecks
      (world_at 4000000
         {[ "queue:acme/repo:42" := acme_record 399999 "processing";
            "queue:acme/repo:43" := acme_record 400000 "completed" ]} None)
    = (Return tt, w1) /\
    cleanOldChecks w1 = (Return tt, w2) /\
    PR_STATE w2 = PR_STATE w1 /\ writes w2 = writes w1.
Proof.
  destruct (cleanOldChecks_twice
              (world_at 4000000
                 {[ "queue:acme/repo:42" := acme_record 399999 "processing";
                    "queue:acme/repo:43" := acme_record 400000 "completed" ]}
                 None))
    as (w1 & w2 & Hrun1 & Hrun2 & _ & Hsame).
  exists w1, w2. split; [exact Hrun1 |]. split; [exact Hrun2 |].
  apply Hsame. cbn. lia.
Defined.

(** ** The rate limiter over time *)

(** The two ways a call of [recordOutput] can end. *)
Lemma recordOutput_cases (w : World) (estimate : Z) :
  let old := loaded_counter w in
  let w1 :=
    match rate_limit_doc (PR_STATE w) with
    | Some _ => w
    | None => elapse 1 w
    end in
  let updated :=
    RateLimitState.mk (RateLimitState.requestCount old)
                      (RateLimitState.inputTokens old)
                      (RateLimitState.outputTokens old + estimate)
                      (RateLimitState.timestamp old) in
  recordOutput estimate w
  = if 2000 <=? RateLimitState.outputTokens old + estimate
    then (Throw too_many_output_tokens, w1)
    else (Return tt,
          mkWorld (mkKV (queue_docs (PR_STATE w)) (Some updated))
                  (PutRateLimit updated :: writes w) (clock w) (reads w1)).
Proof.
  unfold recordOutput, getRateLimitState, loaded_counter,
    bind, get_rate_limit, Date_now, updateRateLimitState, put_rate_limit.
  change RATE_LIMITS.outputTokensPerMinute with 2000.
  destruct (rate_limit_doc (PR_STATE w)) as [st |]; cbn;
    now destruct (2000 <=? _).
Qed.

Lemma loaded_counter_in_bounds (w : World) :
  stored_counter_in_bounds w -> counter_in_bounds (loaded_counter w).
Proof.
  unfold stored_counter_in_bounds, loaded_counter.
  destruct (rate_limit_doc (PR_STATE w)); [done |].
  intros _. unfold counter_in_bounds; cbn. lia.
Qed.

Lemma reset_if_elapsed_in_bounds (t : Z) (st : RateLimitState.t) :
  counter_in_bounds st -> counter_in_bounds (reset_if_elapsed t st).
Proof.
  intros Hst. unfold reset_if_elapsed.
  destruct (60000 <=? _); [| exact Hst].
  unfold counter_in_bounds; cbn. lia.
Qed.

Lemma rate_call_in_bounds (c : RateCall) (w : World) :
  0 <= call_estimate c ->
  stored_counter_in_bounds w ->
  stored_counter_in_bounds (snd (rate_call c w)) /\
  queue_docs (PR_STATE (snd (rate_call c w))) = queue_docs (PR_STATE w).
Proof.
  intros Hest Hw.
  pose proof (loaded_counter_in_bounds w Hw) as Hold.
  destruct c as [tokenCount | estimate]; cbn [rate_call call_estimate] in *.
  - rewrite checkRateLimit_cases. cbv zeta.
    match goal with
    | |- context [reset_if_elapsed ?t _] =>
        pose proof (reset_if_elapsed_in_bounds t _ Hold) as Hst;
        set (st := reset_if_elapsed t _) in *
    end.
    destruct Hst as (Hrc & Hit & Hot).
    assert (Hkeep :
      forall n, stored_counter_in_bounds (elapse n w) /\
                queue_docs (PR_STATE (elapse n w)) = queue_docs (PR_STATE w))
      by (intros n; split; [exact Hw | reflexivity]).
    destruct (Z.leb_spec 5 (RateLimitState.requestCount st)).
    { destruct (rate_limit_doc (PR_STATE w)); apply Hkeep. }
    destruct (Z.leb_spec 10000 (RateLimitState.inputTokens st + tokenCount)).
    { destruct (rate_limit_doc (PR_STATE w)); apply Hkeep. }
    split; [| reflexivity].
    unfold stored_counter_in_bounds, counter_in_bounds; cbn. lia.
  - rewrite recordOutput_cases. cbv zeta.
    destruct Hold as (Hrc & Hit & Hot).
    destruct (Z.leb_spec 2000
                (RateLimitState.outputTokens (loaded_counter w) + estimate)).
    { destruct (rate_limit_doc (PR_STATE w));
        (split; [exact Hw | reflexivity]). }
    split; [| reflexivity].
    unfold stored_counter_in_bounds, counter_in_bounds; cbn. lia.
Qed.

(** X6.  The stored counter never leaves its limits.  If the counter in the
    store (when there is one) has between 0 and 5 requests, between 0 and
    9,999 input tokens and between 0 and 1,999 output tokens, it still does
    after any sequence of [checkRateLimit] and [recordOutput] calls with
    non-negative estimates, whichever of them fail and whatever the clock
    reads; and those calls leave the check records alone. *)
Theorem counter_stays_in_bounds (calls : list RateCall) :
  forall w : World,
    Forall (fun c => 0 <= call_estimate c) calls ->
    stored_counter_in_bounds w ->
    stored_counter_in_bounds (after_calls calls w) /\
    queue_docs (PR_STATE (after_calls calls w)) = queue_docs (PR_STATE w).
Proof.
  induction calls as [| c calls IH]; intros w Hest Hw; [done |].
  apply Forall_cons in Hest as [Hc Hest].
  destruct (rate_call_in_bounds c w Hc Hw) as [Hw1 Hq1].
  destruct (IH (snd (rate_call c w)) Hest Hw1) as [Hw' Hq'].
  split; [exact Hw' | exact (eq_trans Hq' Hq1)].
Qed.

Lemma counter_stays_in_bounds_witness :
  stored_counter_in_bounds
    (after_calls
       [Reserve 9000; RecordOutput 1999; Reserve 1000; RecordOutput 1;
        Reserve 999]
       (world_ticking 0 10000 ∅ None)) /\
  rate_limit_doc
    (PR_STATE
       (after_calls
          [Reserve 9000; RecordOutput 1999; Reserve 1000; RecordOutput 1;
           Reserve 999]
          (world_ticking 0 10000 ∅ None)))
  = Some (RateLimitState.mk 2 9999 1999 0).
Proof.
  split; [| vm_compute; reflexivity].
  apply (counter_stays_in_bounds
           [Reserve 9000; RecordOutput 1999; Reserve 1000; RecordOutput 1;
            Reserve 999]
           (world_ticking 0 10000 ∅ None)).
  - repeat constructor; cbn; lia.
  - exact I.
Defined.

(** An estimate of 10,000 or more is refused whatever the window holds. *)
Lemma checkRateLimit_oversize (w : World) (tokenCount : Z) :
  10000 <= tokenCount ->
  0 <= RateLimitState.inputTokens (loaded_counter w) ->
  exists e w',
    checkRateLimit tokenCount w = (Throw e, w') /\
    RateLimitExceeded e = true /\
    PR_STATE w' = PR_STATE w /\ writes w' = writes w.
Proof.
  intros Hbig Hpos. rewrite checkRateLimit_cases. cbv zeta.
  match goal with
  | |- context [reset_if_elapsed ?t _] =>
      assert (Hst : 0 <= RateLimitState.inputTokens
                          (reset_if_elapsed t (loaded_counter w)))
        by (unfold reset_if_elapsed; destruct (60000 <=? _); cbn; lia);
      set (st := reset_if_elapsed t _) in *
  end.
  destruct (5 <=? RateLimitState.requestCount st).
  - eexists _, _. split; [reflexivity |].
    destruct (rate_limit_doc (PR_STATE w)); repeat split.
  - destruct (Z.leb_spec 10000 (RateLimitState.inputTokens st + tokenCount));
      [| lia].
    eexists _, _. split; [reflexivity |].
    destruct (rate_limit_doc (PR_STATE w)); repeat split.
Qed.

(** ** Measuring and reading texts *)

(** X7.  [estimateTokenCount] is the length in code units divided by four
    and rounded up: it is never negative, is 0 only for the empty text,
    grows with the length, and reaches the input limit of 10,000 exactly
    from 39,997 code units on and the output limit of 2,000 exactly from
    7,997 on. *)
Theorem estimateTokenCount_bounds (text : JSString) :
  4 * (estimateTokenCount text - 1) < Z.of_nat (length text)
                                    <= 4 * estimateTokenCount text /\
  0 <= estimateTokenCount text /\
  (estimateTokenCount text = 0 <-> text = []) /\
  (forall text' : JSString,
     (length text <= length text')%nat ->
     estimateTokenCount text <= estimateTokenCount text') /\
  (10000 <= estimateTokenCount text <-> 39997 <= Z.of_nat (length text)) /\
  (2000 <= estimateTokenCount text <-> 7997 <= Z.of_nat (length text)).
Proof.
  unfold estimateTokenCount.
  pose proof (Math_ceil_div_bounds (Z.of_nat (length text)) 4 eq_refl) as Hb.
  split; [exact Hb |]. split; [lia |]. split; [| split; [| split]].
  - split.
    + intros H0. rewrite H0 in Hb.
      destruct text; [reflexivity |]. cbn [length] in Hb. lia.
    + intros ->. reflexivity.
  - intros text' Hle.
    pose proof (Math_ceil_div_bounds (Z.of_nat (length text')) 4 eq_refl).
    lia.
  - lia.
  - lia.
Qed.

Lemma startsWith_spec (s prefix : JSString) :
  startsWith s prefix = true <-> exists rest, s = prefix ++ rest.
Proof.
  revert s. induction prefix as [| p prefix IH]; intros [| c s]; cbn.
  - split; [intros _; now exists [] | reflexivity].
  - split; [intros _; now exists (c :: s) | reflexivity].
  - split; [discriminate | intros [rest Hrest]; discriminate Hrest].
  - rewrite andb_true_iff, N.eqb_eq, IH. split.
    + intros [-> [rest ->]]. now exists rest.
    + intros [rest Heq]. injection Heq as -> ->.
      split; [reflexivity | now exists rest].
Qed.

Lemma includes_spec (s needle : JSString) :
  includes s needle = true <->
  exists before after, s = before ++ needle ++ after.
Proof.
  induction s as [| c s IH]; cbn [includes].
  - rewrite orb_false_r, startsWith_spec. split.
    + intros [rest ->]. now exists [], rest.
    + intros (before & after & Heq). symmetry in Heq.
      apply app_eq_nil in Heq as [-> Heq]. now exists after.
  - rewrite orb_true_iff, startsWith_spec, IH. split.
    + intros [[rest ->] | (before & after & ->)].
      * now exists [], rest.
      * now exists (c :: before), after.
    + intros (before & after & Heq). destruct before as [| b before].
      * left. now exists after.
      * injection Heq as -> ->. right. now exists before, after.
Qed.

(** A text that includes [a] includes every text that [a] includes. *)
Lemma includes_trans (s a b : JSString) :
  includes s a = true -> includes a b = true -> includes s b = true.
Proof.
  rewrite !includes_spec.
  intros (s1 & s2 & ->) (a1 & a2 & ->).
  exists (s1 ++ a1), (a2 ++ s2). now rewrite <- !app_assoc.
Qed.

(** X8.  The earlier runner's structure check looks for ["# "], ["## "] and
    ["### "], but a text that includes ["### "] includes the other two: the
    check passes exactly when the article includes ["### "], and whenever it
    fails ["### "] is among the sections reported missing. *)
Theorem legacy_structure_check (content : JSString) :
  let r := Legacy.validateMarkdownStructure content in
  QualityCheckResult.passed r = includes content (js "### ") /\
  (QualityCheckResult.passed r = true ->
   QualityCheckResult.details r = js "Article structure meets requirements"
   /\ QualityCheckResult.suggestions r = None) /\
  (QualityCheckResult.passed r = false ->
   exists missing,
     QualityCheckResult.details r
     = js "Missing required sections: " ++ join (js ", ") missing /\
     js "### " ∈ missing /\
     is_Some (QualityCheckResult.suggestions r)).
Proof.
  cbv zeta. unfold Legacy.validateMarkdownStructure, Legacy.requiredSections.
  cbn [List.filter].
  pose proof (includes_trans content (js "### ") (js "## ")) as H32.
  pose proof (includes_trans content (js "### ") (js "# ")) as H31.
  pose proof (includes_trans content (js "## ") (js "# ")) as H21.
  destruct (includes content (js "### ")) eqn:H3.
  - rewrite (H32 eq_refl eq_refl), (H31 eq_refl eq_refl). cbn.
    repeat split; done.
  - destruct (includes content (js "## ")) eqn:H2.
    + rewrite (H21 eq_refl eq_refl). cbn. repeat split; try done.
      intros _. exists [js "### "].
      split; [reflexivity |]. split; [left | done].
    + destruct (includes content (js "# ")) eqn:H1; cbn;
        (repeat split; try done; intros _).
      * exists [js "## "; js "### "].
        split; [reflexivity |]. split; [right; left | done].
      * exists [js "# "; js "## "; js "### "].
        split; [reflexivity |]. split; [right; right; left | done].
Qed.

Section CaseFolding.

Variable toLowerCase : JSString -> JSString.

(** On a text of ASCII code units [toLowerCase] maps ["A"].. ["Z"] to
    ["a"].. ["z"] and leaves every other code unit as it is. *)
Hypothesis toLowerCase_ascii :
  forall s, is_ascii s -> toLowerCase s = map ascii_lower s.

(** X9.  The verdict is a substring test.  For an ASCII answer, [passed] is
    true exactly when the four letters p, a, s, s occur in a row somewhere
    in it, in any mix of cases: whatever else the answer says, also a
    verdict of FAIL, plays no part. *)
Theorem analysis_passed_spec (analysis : JSString) :
  is_ascii analysis ->
  (analysis_passed toLowerCase analysis = true <->
   exists before word after,
     analysis = before ++ word ++ after /\
     map ascii_lower word = js "pass").
Proof.
  intros Hascii. unfold analysis_passed.
  rewrite (toLowerCase_ascii _ Hascii), includes_spec. split.
  - intros (before & after & Heq).
    apply map_eq_app in Heq as (l1 & l2 & -> & <- & Heq).
    apply map_eq_app in Heq as (l3 & l4 & -> & Hword & <-).
    now exists l1, l3, l4.
  - intros (before & word & after & -> & Hword).
    exists (map ascii_lower before), (map ascii_lower after).
    now rewrite !map_app, Hword.
Qed.

End CaseFolding.

Lemma analysis_passed_spec_witness :
  analysis_passed (map ascii_lower)
    (js "Overall assessment: FAIL. The article does not Pass criterion 4.")
  = true.
Proof.
  apply (analysis_passed_spec (map ascii_lower)).
  - intros s _. reflexivity.
  - unfold is_ascii. repeat constructor.
  - exists (js "Overall assessment: FAIL. The article does not "),
      (js "Pass"), (js " criterion 4.").
    split; reflexivity.
Defined.

Lemma split_line (line rest : JSString) :
  10%N ∉ line ->
  split 10 (line ++ 10%N :: rest) = line :: split 10 rest.
Proof.
  induction line as [| c line IH]; intros Hlf; cbn [split app].
  - reflexivity.
  - apply not_elem_of_cons in Hlf as [Hc Hlf].
    destruct (N.eqb_spec c 10) as [-> | _]; [done |].
    now rewrite (IH Hlf).
Qed.

Lemma split_last_line (line : JSString) :
  10%N ∉ line -> split 10 line = [line].
Proof.
  induction line as [| c line IH]; intros Hlf; cbn [split]; [reflexivity |].
  apply not_elem_of_cons in Hlf as [Hc Hlf].
  destruct (N.eqb_spec c 10) as [-> | _]; [done |].
  now rewrite (IH Hlf).
Qed.

(** Splitting at line feeds undoes joining with line feeds. *)
Lemma split_join (lines : list JSString) :
  lines <> [] ->
  Forall (fun line => 10%N ∉ line) lines ->
  split 10 (join [10%N] lines) = lines.
Proof.
  induction lines as [| line lines IH]; intros Hne Hlf; [done |].
  apply Forall_cons in Hlf as [Hline Hlines].
  destruct lines as [| line' lines].
  - cbn [join]. now apply split_last_line.
  - change (join [10%N] (line :: line' :: lines))
      with (line ++ 10%N :: join [10%N] (line' :: lines)).
    rewrite (split_line _ _ Hline), IH; done.
Qed.

Lemma trimStart_length (s : JSString) :
  (length (trimStart s) <= length s)%nat.
Proof.
  induction s as [| c s IH]; cbn [trimStart length]; [lia |].
  destruct (isWhiteSpace c); cbn [length]; lia.
Qed.

(** [trimStart] of a text followed by a space and a hyphen stops at the
    hyphen at the latest. *)
Lemma trimStart_before_hyphen (r : JSString) :
  trimStart (r ++ [32%N; 45%N])
  = match trimStart r with
    | [] => [45%N]
    | kept => kept ++ [32%N; 45%N]
    end.
Proof.
  induction r as [| c r IH]; [reflexivity |].
  cbn [app trimStart]. destruct (isWhiteSpace c); [exact IH | reflexivity].
Qed.

(** A bullet line is kept by the filter, and what [substring(2)] leaves of
    it is the item without its trailing white space. *)
Lemma bullet_line_read (item : JSString) :
  startsWith (trim (js "- " ++ item)) (js "-") = true /\
  drop 2 (trim (js "- " ++ item)) = trimEnd item.
Proof.
  change (js "- ") with [45%N; 32%N]. change (js "-") with [45%N].
  unfold trim.
  change (trimStart ([45%N; 32%N] ++ item)) with ([45%N; 32%N] ++ item).
  unfold trimEnd. rewrite rev_app_distr.
  change (rev [45%N; 32%N]) with [32%N; 45%N].
  rewrite trimStart_before_hyphen.
  destruct (trimStart (rev item)) as [| c kept]; [split; reflexivity |].
  rewrite rev_app_distr. change (rev [32%N; 45%N]) with [45%N; 32%N].
  split; reflexivity.
Qed.

(** X10.  Bullets are read back.  For an answer made of lines without line
    feeds inside, each either prose that does not begin (after trimming)
    with a hyphen or a bullet written [- item], the suggestions are the
    items of the bullets, in order, each without its trailing white space:
    an item that does not end in white space is read back verbatim, any
    other loses it (a carriage return before the line feed included). *)
Theorem analysis_suggestions_bullets (lines : list Line) :
  lines <> [] ->
  Forall plain_line lines ->
  analysis_suggestions (join [10%N] (map render_line lines))
  = map trimEnd (bullets lines) /\
  (Forall (fun item => trimEnd item = item) (bullets lines) ->
   analysis_suggestions (join [10%N] (map render_line lines))
   = bullets lines).
Proof.
  intros Hne Hplain.
  assert (Hread : analysis_suggestions (join [10%N] (map render_line lines))
                  = map trimEnd (bullets lines)).
  { unfold analysis_suggestions. rewrite split_join.
    - clear Hne.
      induction Hplain as [| l lines Hl _ IH]; [reflexivity |].
      cbn [map List.filter bullets flat_map].
      destruct l as [text | item]; cbn [render_line].
      + destruct Hl as [_ Hl]. rewrite Hl. exact IH.
      + destruct (bullet_line_read item) as [Hstart Hdrop].
        rewrite Hstart. cbn [map app]. rewrite Hdrop. f_equal. exact IH.
    - destruct lines; [done | discriminate].
    - apply Forall_map. eapply Forall_impl; [exact Hplain |].
      intros [text | item] Hl; cbn [render_line]; [exact (proj1 Hl) |].
      change (js "- ") with [45%N; 32%N]. cbn in Hl.
      intros [Hin | Hin]%elem_of_app; [| done].
      apply elem_of_cons in Hin as [Hin | Hin]; [discriminate Hin |].
      apply elem_of_cons in Hin as [Hin | Hin]; [discriminate Hin |].
      inversion Hin. }
  split; [exact Hread |].
  intros Hclean. rewrite Hread. clear Hread Hne Hplain.
  induction Hclean as [| item items Hitem _ IH]; [reflexivity |].
  cbn [map]. now rewrite Hitem, IH.
Qed.

Lemma analysis_suggestions_bullets_witness :
  analysis_suggestions
    (js "Overall assessment: FAIL" ++ [10%N]
     ++ js "- Add transaction hashes " ++ [13%N; 10%N]
     ++ js "Timeline is missing." ++ [10%N]
     ++ js "- Use UTC timestamps")
  = [js "Add transaction hashes"; js "Use UTC timestamps"].
Proof.
  refine (proj1 (analysis_suggestions_bullets
                   [Prose (js "Overall assessment: FAIL");
                    Bullet (js "Add transaction hashes " ++ [13%N]);
                    Prose (js "Timeline is missing.");
                    Bullet (js "Use UTC timestamps")] _ _)).
  - discriminate.
  - repeat constructor; vm_compute; try reflexivity;
      intros Hin; repeat (apply elem_of_cons in Hin as [Hin | Hin];
                          [discriminate Hin |]); inversion Hin.
Defined.

(** ** One review by the model *)

(** What a successful [checkRateLimit] has stored. *)
Lemma checkRateLimit_returns (w w1 : World) (tokenCount : Z) :
  checkRateLimit tokenCount w = (Return tt, w1) ->
  exists st1,
    rate_limit_doc (PR_STATE w1) = Some st1 /\
    writes w1 = PutRateLimit st1 :: writes w /\
    queue_docs (PR_STATE w1) = queue_docs (PR_STATE w) /\
    RateLimitState.requestCount st1 <= 5 /\
    RateLimitState.inputTokens st1 < 10000 /\
    (RateLimitState.outputTokens st1
     = RateLimitState.outputTokens (loaded_counter w)
     \/ RateLimitState.outputTokens st1 = 0).
Proof.
  rewrite checkRateLimit_cases. cbv zeta.
  match goal with
  | |- context [reset_if_elapsed ?t _] =>
      assert (Hot : RateLimitState.outputTokens
                      (reset_if_elapsed t (loaded_counter w))
                    = RateLimitState.outputTokens (loaded_counter w)
                    \/ RateLimitState.outputTokens
                         (reset_if_elapsed t (loaded_counter w)) = 0)
        by (unfold reset_if_elapsed; destruct (60000 <=? _); cbn; tauto);
      set (st := reset_if_elapsed t _) in *
  end.
  destruct (Z.leb_spec 5 (RateLimitState.requestCount st));
    [discriminate |].
  destruct (Z.leb_spec 10000 (RateLimitState.inputTokens st + tokenCount));
    [discriminate |].
  intros Hrun. injection Hrun as <-. eexists.
  split; [reflexivity |]. cbn.
  split; [reflexivity |]. split; [reflexivity |].
  split; [lia |]. split; [lia | exact Hot].
Qed.

Section Review.

Variable toLowerCase : JSString -> JSString.

(** X11.  An article of 39,997 code units or more is never sent: whatever
    the window holds (with a non-negative input count) and whatever the
    service would have answered, [validateWithOpenRouter] fails with
    RateLimitExceeded and writes nothing. *)
Theorem validateWithOpenRouter_oversize (content : JSString) (reply : Reply)
    (w : World) :
  39997 <= Z.of_nat (length content) ->
  0 <= RateLimitState.inputTokens (loaded_counter w) ->
  exists e w',
    validateWithOpenRouter toLowerCase content reply w = (Throw e, w') /\
    RateLimitExceeded e = true /\
    PR_STATE w' = PR_STATE w /\ writes w' = writes w.
Proof.
  intros Hlen Hpos.
  destruct (checkRateLimit_oversize w (estimateTokenCount content))
    as (e & w' & Hrun & He & Hkv & Hlog).
  { now apply estimateTokenCount_bounds. }
  { exact Hpos. }
  exists e, w'. unfold validateWithOpenRouter, bind. rewrite Hrun. auto.
Qed.

(** X12.  A request that was let through stays charged.  Once
    [checkRateLimit] has succeeded, every failure of
    [validateWithOpenRouter] (a rejected fetch, a non-2xx status, an
    unreadable or empty answer, too many output tokens) leaves the store
    exactly as [checkRateLimit] left it, with the request and its input
    tokens counted and no output tokens added.  It returns only for a 2xx
    response with a non-empty answer; the result then carries the answer
    unchanged as its details, and the stored counter differs from the one
    [checkRateLimit] stored only by the answer's estimate added to
    [outputTokens], which stays below 2,000. *)
Theorem validateWithOpenRouter_accounting (content : JSString) (reply : Reply)
    (w w1 : World) :
  checkRateLimit (estimateTokenCount content) w = (Return tt, w1) ->
  exists st1,
    rate_limit_doc (PR_STATE w1) = Some st1 /\
    ((exists e,
        validateWithOpenRouter toLowerCase content reply w = (Throw e, w1)) \/
     (exists status text analysis r w',
        reply = Response status text (Return (Some analysis)) /\
        ok status = true /\ analysis <> [] /\
        validateWithOpenRouter toLowerCase content reply w = (Return r, w') /\
        QualityCheckResult.details r = analysis /\
        QualityCheckResult.passed r = analysis_passed toLowerCase analysis /\
        RateLimitState.outputTokens st1 + estimateTokenCount analysis < 2000 /\
        rate_limit_doc (PR_STATE w')
        = Some (RateLimitState.mk
                  (RateLimitState.requestCount st1)
                  (RateLimitState.inputTokens st1)
                  (RateLimitState.outputTokens st1
                   + estimateTokenCount analysis)
                  (RateLimitState.timestamp st1)) /\
        queue_docs (PR_STATE w') = queue_docs (PR_STATE w))).
Proof.
  intros Hrun.
  destruct (checkRateLimit_returns _ _ _ Hrun)
    as (st1 & Hst1 & _ & Hq & _).
  exists st1. split; [exact Hst1 |].
  destruct (validateWithOpenRouter toLowerCase content reply w)
    as [res wf] eqn:Hval.
  unfold validateWithOpenRouter, bind at 1 in Hval. rewrite Hrun in Hval.
  destruct reply as [e | status text json].
  { left. exists e. exact (eq_sym Hval). }
  destruct (ok status) eqn:Hok; cbn [negb] in Hval.
  2:{ left. destruct text as [errorText | e]; eexists; exact (eq_sym Hval). }
  destruct json as [[[| c analysis] |] | e];
    try (left; eexists; exact (eq_sym Hval)).
  unfold bind in Hval. rewrite recordOutput_cases in Hval. cbv zeta in Hval.
  rewrite (loaded_counter_stored _ _ Hst1), Hst1 in Hval.
  destruct (Z.leb_spec 2000
              (RateLimitState.outputTokens st1
               + estimateTokenCount (c :: analysis))).
  - left. eexists. exact (eq_sym Hval).
  - right. injection Hval as <- <-.
    eexists status, text, (c :: analysis), _, _.
    split; [reflexivity |]. split; [exact Hok |]. split; [discriminate |].
    split; [reflexivity |]. cbn. repeat split; try done.
Qed.

(** X13.  An answer of 7,997 code units or more is thrown away.  When the
    request went through and the service answered 2xx with such an answer,
    [validateWithOpenRouter] fails with the too-many-output-tokens error,
    whatever the window held before (with a non-negative output count): the
    request stays charged and the answer is not returned. *)
Theorem validateWithOpenRouter_long_answer (content analysis : JSString)
    (status : Z) (text : Completion string) (w w1 : World) :
  checkRateLimit (estimateTokenCount content) w = (Return tt, w1) ->
  0 <= RateLimitState.outputTokens (loaded_counter w) ->
  ok status = true ->
  7997 <= Z.of_nat (length analysis) ->
  validateWithOpenRouter toLowerCase content
    (Response status text (Return (Some analysis))) w
  = (Throw too_many_output_tokens, w1).
Proof.
  intros Hrun Hpos Hok Hlen.
  destruct (checkRateLimit_returns _ _ _ Hrun)
    as (st1 & Hst1 & _ & _ & _ & _ & Hot).
  unfold validateWithOpenRouter, bind at 1. rewrite Hrun, Hok. cbn [negb].
  destruct analysis as [| c analysis]; [cbn in Hlen; lia |].
  unfold bind. rewrite recordOutput_cases. cbv zeta.
  rewrite (loaded_counter_stored _ _ Hst1), Hst1.
  apply estimateTokenCount_bounds in Hlen.
  destruct (Z.leb_spec 2000
              (RateLimitState.outputTokens st1
               + estimateTokenCount (c :: analysis))); [reflexivity | lia].
Qed.

End Review.

Lemma validateWithOpenRouter_oversize_witness :
  exists e w',
    validateWithOpenRouter (map ascii_lower) (repeat 97%N (Z.to_nat 40000))
      (Response 200 (Return "") (Return (Some (js "PASS"))))
      (world_at 1000 ∅ None)
    = (Throw e, w') /\
    RateLimitExceeded e = true /\
    PR_STATE w' = mkKV ∅ None.
Proof.
  destruct (validateWithOpenRouter_oversize
              (map ascii_lower) (repeat 97%N (Z.to_nat 40000))
              (Response 200 (Return "") (Return (Some (js "PASS"))))
              (world_at 1000 ∅ None))
    as (e & w' & Hrun & He & Hkv & _).
  - rewrite repeat_length. lia.
  - cbn. lia.
  - exists e, w'. auto.
Defined.

Lemma validateWithOpenRouter_accounting_witness :
  exists e,
    validateWithOpenRouter (map ascii_lower) (js "An article.")
      (Response 503 (Return "busy") (Return None)) (world_at 1000 ∅ None)
    = (Throw e,
       mkWorld (mkKV ∅ (Some (RateLimitState.mk 1 3 0 1000)))
               [PutRateLimit (RateLimitState.mk 1 3 0 1000)]
               (fun _ => 1000) 2).
Proof.
  destruct (validateWithOpenRouter_accounting
              (map ascii_lower) (js "An article.")
              (Response 503 (Return "busy") (Return None))
              (world_at 1000 ∅ None)
              (mkWorld (mkKV ∅ (Some (RateLimitState.mk 1 3 0 1000)))
                       [PutRateLimit (RateLimitState.mk 1 3 0 1000)]
                       (fun _ => 1000) 2))
    as (st1 & _ & [Hfail | Hok]).
  - vm_compute. reflexivity.
  - exact Hfail.
  - destruct Hok as (status & text & analysis & r & w' & Hreply & _).
    discriminate Hreply.
Defined.

Lemma validateWithOpenRouter_long_answer_witness :
  validateWithOpenRouter (map ascii_lower) (js "An article.")
    (Response 200 (Return "") (Return (Some (repeat 97%N (Z.to_nat 8000)))))
    (world_at 1000 ∅ None)
  = (Throw too_many_output_tokens,
     mkWorld (mkKV ∅ (Some (RateLimitState.mk 1 3 0 1000)))
             [PutRateLimit (RateLimitState.mk 1 3 0 1000)]
             (fun _ => 1000) 2).
Proof.
  apply validateWithOpenRouter_long_answer.
  - vm_compute. reflexivity.
  - cbn. lia.
  - reflexivity.
  - rewrite repeat_length. lia.
Defined.

(** ** Webhook signatures *)

Lemma hex_value_digit (d : N) :
  (d < 16)%N -> hex_value (hex_digit d) = Some d.
Proof.
  intros Hd. destruct d as [| p]; [reflexivity |].
  do 4 (destruct p as [p | p |]; try reflexivity; try lia).
Qed.

Lemma hex_byte_read (b : Byte.byte) :
  exists hi lo,
    padStart 2 "0" (toString16 b) = String hi (String lo EmptyString) /\
    unhex hi lo = Some b.
Proof.
  pose proof (Byte.to_N_bounded b) as Hb.
  pose proof (Byte.of_to_N b) as Hread.
  unfold toString16. set (n := Byte.to_N b) in *.
  destruct (N.ltb_spec n 16) as [Hlt | Hge].
  - exists "0"%char, (hex_digit n). split; [reflexivity |].
    unfold unhex. rewrite (hex_value_digit n Hlt).
    change (hex_value "0") with (Some 0%N).
    change (16 * 0 + n)%N with n. exact Hread.
  - exists (hex_digit (n / 16)), (hex_digit (n mod 16)).
    split; [reflexivity |].
    unfold unhex. rewrite !hex_value_digit.
    + replace (16 * (n / 16) + n mod 16)%N with n; [exact Hread |].
      apply N.div_mod. discriminate.
    + now apply N.mod_lt.
    + apply N.Div0.div_lt_upper_bound. lia.
Qed.

Lemma hex_cons (b : Byte.byte) (bytes : list Byte.byte) :
  exists hi lo,
    hex (b :: bytes) = String hi (String lo (hex bytes)) /\
    unhex hi lo = Some b.
Proof.
  destruct (hex_byte_read b) as (hi & lo & Hb & Hread).
  exists hi, lo. split; [| exact Hread].
  unfold hex. cbn [map String.concat]. rewrite Hb.
  now destruct (map _ bytes).
Qed.

Lemma hex_inj (m m' : list Byte.byte) : hex m = hex m' -> m = m'.
Proof.
  revert m'. induction m as [| b m IH]; intros [| b' m'] Heq.
  - reflexivity.
  - destruct (hex_cons b' m') as (hi & lo & Hc & _).
    rewrite Hc in Heq. discriminate Heq.
  - destruct (hex_cons b m) as (hi & lo & Hc & _).
    rewrite Hc in Heq. discriminate Heq.
  - destruct (hex_cons b m) as (hi & lo & Hc & Hread).
    destruct (hex_cons b' m') as (hi' & lo' & Hc' & Hread').
    rewrite Hc, Hc' in Heq. injection Heq as -> -> Heq.
    f_equal; [congruence | now apply IH].
Qed.

Lemma hex_length (m : list Byte.byte) :
  String.length (hex m) = (2 * length m)%nat.
Proof.
  induction m as [| b m IH]; [reflexivity |].
  destruct (hex_cons b m) as (hi & lo & -> & _). cbn [String.length length].
  lia.
Qed.

Lemma append_length (s1 s2 : string) :
  String.length (s1 +:+ s2) = (String.length s1 + String.length s2)%nat.
Proof.
  induction s1 as [| c s1 IH]; [reflexivity |].
  change (S (String.length (s1 +:+ s2))
          = S (String.length s1 + String.length s2)).
  now rewrite IH.
Qed.

Section WebhookSignature.

Variable HMAC_SHA256 : string -> string -> Completion (list Byte.byte).

(** X14.  [verifyGitHubWebhook] touches neither store nor clock.  When the
    MAC can be computed it answers [true] exactly for the signature
    ["sha256="] followed by the MAC in lower-case hexadecimal, two digits a
    byte; the encoding is injective, so a signature that encodes some bytes
    is accepted only if those bytes are the MAC, and every accepted
    signature is [7 + 2 * length] characters long.  When the key import or
    the signing rejects it throws, and accepts nothing. *)
Theorem verifyGitHubWebhook_accepts (payload signature secret : string)
    (w : World) :
  match HMAC_SHA256 secret payload with
  | Return mac =>
      exists accepted : bool,
        verifyGitHubWebhook HMAC_SHA256 payload signature secret w
        = (Return accepted, w) /\
        (accepted = true <-> signature = "sha256=" +:+ hex mac) /\
        (accepted = true ->
         String.length signature = (7 + 2 * length mac)%nat) /\
        (forall claimed : list Byte.byte,
           signature = "sha256=" +:+ hex claimed ->
           (accepted = true <-> claimed = mac))
  | Throw e =>
      verifyGitHubWebhook HMAC_SHA256 payload signature secret w
      = (Throw e, w)
  end.
Proof.
  unfold verifyGitHubWebhook, bind, settled.
  destruct (HMAC_SHA256 secret payload) as [mac | e]; [| reflexivity].
  eexists. split; [reflexivity |].
  assert (Hacc : String.eqb ("sha256=" +:+ hex mac) signature = true
                 <-> signature = "sha256=" +:+ hex mac).
  { rewrite String.eqb_eq. split; intros ->; reflexivity. }
  split; [exact Hacc |]. split.
  - intros ->%Hacc. rewrite append_length, hex_length. reflexivity.
  - intros claimed ->. rewrite Hacc. split.
    + intros Heq. apply (String.app_inj "sha256=") in Heq.
      now apply hex_inj.
    + now intros ->.
Qed.

End WebhookSignature.

Lemma verifyGitHubWebhook_accepts_witness :
  verifyGitHubWebhook (fun _ _ => Return [x00; x0a; xff]%byte)
    "{}" "sha256=000aff" "secret" (world_at 0 ∅ None)
  = (Return true, world_at 0 ∅ None).
Proof.
  pose proof (verifyGitHubWebhook_accepts
                (fun _ _ => Return [x00; x0a; xff]%byte)
                "{}" "sha256=000aff" "secret" (world_at 0 ∅ None)) as H.
  cbv beta in H. destruct H as (accepted & Hrun & Hacc & _).
  rewrite Hrun. f_equal. f_equal. apply Hacc. reflexivity.
Defined.

(** ** Comments *)

Lemma includes_app_l (a b x : JSString) :
  includes a x = true -> includes (a ++ b) x = true.
Proof.
  rewrite !includes_spec. intros (before & after & ->).
  exists before, (after ++ b). now rewrite <- !app_assoc.
Qed.

Lemma includes_app_r (a b x : JSString) :
  includes b x = true -> includes (a ++ b) x = true.
Proof.
  rewrite !includes_spec. intros (before & after & ->).
  exists (a ++ before), after. now rewrite <- !app_assoc.
Qed.

Lemma includes_here (x after : JSString) : includes (x ++ after) x = true.
Proof. apply includes_spec. now exists [], after. Qed.

Lemma append_suggestions_grows (suggestions : list JSString) :
  forall comment,
    append_suggestions comment suggestions
    = comment ++ append_suggestions [] suggestions.
Proof.
  unfold append_suggestions.
  induction suggestions as [| s suggestions IH]; intros comment; cbn.
  - now rewrite app_nil_r.
  - rewrite IH, (IH (js "- " ++ s ++ LF)). now rewrite <- !app_assoc.
Qed.

Lemma append_suggestions_includes (suggestions : list JSString)
    (s : JSString) :
  s ∈ suggestions ->
  includes (append_suggestions [] suggestions) (js "- " ++ s ++ LF) = true.
Proof.
  induction suggestions as [| s' suggestions IH]; intros Hin;
    [inversion Hin |].
  unfold append_suggestions. cbn [fold_left app].
  fold (append_suggestions (js "- " ++ s' ++ LF) suggestions).
  rewrite append_suggestions_grows.
  apply elem_of_cons in Hin as [-> | Hin].
  - apply includes_app_l. rewrite <- (app_nil_r (js "- " ++ s' ++ LF)) at 1.
    apply includes_here.
  - apply includes_app_r. now apply IH.
Qed.

Section Growing.

Context {A : Type}.
Variable body : JSString -> nat -> A -> JSString.
Hypothesis body_grows :
  forall comment index x, body comment index x = comment ++ body [] index x.

Lemma forEach_from_grows (xs : list A) :
  forall index comment,
    forEach_from index xs body comment
    = comment ++ forEach_from index xs body [].
Proof.
  induction xs as [| x xs IH]; intros index comment; cbn.
  - now rewrite app_nil_r.
  - rewrite IH, (IH _ (body [] index x)), body_grows.
    now rewrite <- !app_assoc.
Qed.

Lemma forEach_from_includes (xs : list A) :
  forall index comment n x,
    xs !! n = Some x ->
    includes (forEach_from index xs body comment) (body [] (index + n) x)
    = true.
Proof.
  induction xs as [| x' xs IH]; intros index comment n x Hn; [done |].
  cbn [forEach_from]. destruct n as [| n].
  - injection Hn as ->. rewrite Nat.add_0_r, forEach_from_grows, body_grows.
    apply includes_app_l, includes_app_r.
    rewrite <- (app_nil_r (body [] index x)) at 1. apply includes_here.
  - replace (index + S n)%nat with (S index + n)%nat by lia.
    now apply IH.
Qed.

End Growing.

Lemma append_suggestions_app (suggestions : list JSString)
    (a b : JSString) :
  append_suggestions (a ++ b) suggestions
  = a ++ append_suggestions b suggestions.
Proof.
  rewrite (append_suggestions_grows suggestions (a ++ b)).
  rewrite (append_suggestions_grows suggestions b).
  now rewrite <- app_assoc.
Qed.

Lemma formatResults_check_grows (comment : JSString) (index : nat)
    (result : QualityCheckResult.t) :
  formatResults_check comment index result
  = comment ++ formatResults_check [] index result.
Proof.
  unfold formatResults_check.
  destruct (QualityCheckResult.passed result);
    destruct (QualityCheckResult.suggestions result) as [[| s ss] |];
    cbv zeta; rewrite !app_nil_l, <- !app_assoc;
    rewrite ?append_suggestions_app; now rewrite <- ?app_assoc.
Qed.

Lemma formatResultsComment_check_grows (comment : JSString) (index : nat)
    (result : QualityCheckResult.t) :
  formatResultsComment_check comment index result
  = comment ++ formatResultsComment_check [] index result.
Proof.
  unfold formatResultsComment_check.
  destruct (QualityCheckResult.passed result);
    destruct (QualityCheckResult.suggestions result) as [[| s ss] |];
    cbv zeta; rewrite !app_nil_l, <- !app_assoc;
    rewrite ?append_suggestions_app; now rewrite <- ?app_assoc.
Qed.

(** A piece of something a text includes, set between two other texts. *)
Lemma includes_piece (front s back c before piece after : JSString) :
  includes s c = true ->
  c = before ++ piece ++ after ->
  includes (front ++ s ++ back) piece = true.
Proof.
  rewrite !includes_spec. intros (b & a & ->) ->.
  exists (front ++ b ++ before), (after ++ a ++ back).
  now rewrite <- !app_assoc.
Qed.

Lemma formatResults_check_shape (index : nat) (r : QualityCheckResult.t) :
  formatResults_check [] index r
  = (js "## Check " ++ ordinal index ++ LF ++ LF)
    ++ (js "> " ++ (if QualityCheckResult.passed r
                    then check_mark ++ js " **Status**: PASS"
                    else cross_mark ++ js " **Status**: FAIL") ++ LF ++ LF)
    ++ (js "**Details**:" ++ LF ++ QualityCheckResult.details r ++ LF ++ LF)
    ++ match QualityCheckResult.suggestions r with
       | Some (s :: ss) =>
           (js "**" ++ light_bulb ++ js " Suggestions**:" ++ LF)
           ++ append_suggestions [] (s :: ss) ++ LF
       | Some [] | None => []
       end.
Proof.
  unfold formatResults_check. cbv zeta. rewrite app_nil_l.
  destruct (QualityCheckResult.passed r);
    destruct (QualityCheckResult.suggestions r) as [[| s ss] |];
    rewrite ?app_nil_r; rewrite <- ?app_assoc; try reflexivity;
    (rewrite (append_suggestions_grows (s :: ss) (_ ++ _));
     now rewrite <- !app_assoc).
Qed.

(** X15.  [formatResults] loses nothing.  The comment opens with the title
    and closes with the footer, so it is never empty; and for every result,
    at position [n], it contains the heading [## Check n+1], the PASS or
    FAIL status line that matches the result, the details verbatim and a
    bullet line for each of its suggestions. *)
Theorem formatResults_complete (results : list QualityCheckResult.t) :
  (exists checks,
     formatResults results
     = (js "# " ++ magnifier ++ js " Article Quality Check Results"
           ++ LF ++ LF)
       ++ checks
       ++ js "---" ++ LF ++ js "_Powered by DNI Article Checker_") /\
  forall n r,
    results !! n = Some r ->
    includes (formatResults results) (js "## Check " ++ ordinal n ++ LF ++ LF)
    = true /\
    includes (formatResults results)
      (js "> " ++ (if QualityCheckResult.passed r
                   then check_mark ++ js " **Status**: PASS"
                   else cross_mark ++ js " **Status**: FAIL") ++ LF ++ LF)
    = true /\
    includes (formatResults results)
      (js "**Details**:" ++ LF ++ QualityCheckResult.details r ++ LF ++ LF)
    = true /\
    (forall suggestions s,
       QualityCheckResult.suggestions r = Some suggestions ->
       s ∈ suggestions ->
       includes (formatResults results) (js "- " ++ s ++ LF) = true).
Proof.
  assert (Hout :
    formatResults results
    = (js "# " ++ magnifier ++ js " Article Quality Check Results"
          ++ LF ++ LF)
      ++ forEach_from 0 results formatResults_check []
      ++ js "---" ++ LF ++ js "_Powered by DNI Article Checker_").
  { unfold formatResults. cbv zeta.
    rewrite (forEach_from_grows _ formatResults_check_grows).
    now rewrite <- !app_assoc. }
  rewrite Hout. split; [now eexists |].
  intros n r Hn.
  pose proof (forEach_from_includes _ formatResults_check_grows
                results 0 [] n r Hn) as Hcheck.
  cbn [Nat.add] in Hcheck.
  pose proof (formatResults_check_shape n r) as Hshape.
  set (heading := js "## Check " ++ ordinal n ++ LF ++ LF) in *.
  set (status := js "> " ++ _ ++ LF ++ LF) in *.
  set (details := js "**Details**:" ++ LF ++ _ ++ LF ++ LF) in *.
  split; [| split; [| split]].
  - eapply (includes_piece _ _ _ _ [] heading _ Hcheck). exact Hshape.
  - eapply (includes_piece _ _ _ _ heading status _ Hcheck). exact Hshape.
  - eapply (includes_piece _ _ _ _ (heading ++ status) details _ Hcheck).
    rewrite <- app_assoc. exact Hshape.
  - intros suggestions s Hsome Hin. rewrite Hsome in Hshape.
    destruct suggestions as [| s' ss]; [inversion Hin |].
    pose proof (append_suggestions_includes _ _ Hin) as Hbullet.
    apply includes_spec in Hbullet as (b & a & Hbullet).
    rewrite Hbullet in Hshape.
    apply (includes_piece
             _ _ _ _
             (heading ++ status ++ details
              ++ (js "**" ++ light_bulb ++ js " Suggestions**:" ++ LF) ++ b)
             (js "- " ++ s ++ LF) (a ++ LF) Hcheck).
    rewrite Hshape. now rewrite <- !app_assoc.
Qed.

Lemma formatResultsComment_check_shape (index : nat)
    (r : QualityCheckResult.t) :
  formatResultsComment_check [] index r
  = (js "## Check " ++ ordinal index ++ js " "
        ++ (if QualityCheckResult.passed r then check_mark else cross_mark)
        ++ LF ++ LF)
    ++ (QualityCheckResult.details r ++ LF ++ LF)
    ++ match QualityCheckResult.suggestions r with
       | Some (s :: ss) =>
           (js "### Suggestions" ++ LF ++ LF)
           ++ append_suggestions [] (s :: ss) ++ LF
       | Some [] | None => []
       end.
Proof.
  unfold formatResultsComment_check. cbv zeta. rewrite app_nil_l.
  destruct (QualityCheckResult.suggestions r) as [[| s ss] |];
    rewrite ?app_nil_r; rewrite <- ?app_assoc; try reflexivity.
  rewrite (append_suggestions_grows (s :: ss) (_ ++ _)).
  now rewrite <- !app_assoc.
Qed.

Lemma some_result_failed (results : list QualityCheckResult.t) :
  forallb QualityCheckResult.passed results = false
  <-> Exists (fun r => QualityCheckResult.passed r = false) results.
Proof.
  induction results as [| r results IH]; cbn [forallb].
  - split; [discriminate | intros H; inversion H].
  - rewrite Exists_cons, andb_false_iff. tauto.
Qed.

(** X16.  The verdict of [formatResultsComment] agrees with the checks.  The
    comment opens with the check-mark title and "Overall Status: Passed"
    exactly when every result passed (so also when there is no result at
    all), and with the cross-mark title and "Changes Required" exactly when
    some result failed.  For every result, at position [n], it contains the
    heading [## Check n+1] with the mark that matches the result, the
    details verbatim and a bullet line for each of its suggestions. *)
Theorem formatResultsComment_verdict (results : list QualityCheckResult.t) :
  let comment := formatResultsComment results in
  (startsWith comment
     (js "# Article Review Results " ++ check_mark ++ LF ++ LF
         ++ js "**Overall Status**: Passed" ++ LF ++ LF) = true
   <-> Forall (fun r => QualityCheckResult.passed r = true) results) /\
  (startsWith comment
     (js "# Article Review Results " ++ cross_mark ++ LF ++ LF
         ++ js "**Overall Status**: Changes Required" ++ LF ++ LF) = true
   <-> Exists (fun r => QualityCheckResult.passed r = false) results) /\
  forall n r,
    results !! n = Some r ->
    includes comment
      (js "## Check " ++ ordinal n ++ js " "
          ++ (if QualityCheckResult.passed r then check_mark else cross_mark)
          ++ LF ++ LF) = true /\
    includes comment (QualityCheckResult.details r ++ LF ++ LF) = true /\
    (forall suggestions s,
       QualityCheckResult.suggestions r = Some suggestions ->
       s ∈ suggestions ->
       includes comment (js "- " ++ s ++ LF) = true).
Proof.
  cbv zeta.
  assert (Hout : exists footer,
    formatResultsComment results
    = (js "# Article Review Results "
          ++ (if forallb QualityCheckResult.passed results
              then check_mark else cross_mark) ++ LF ++ LF
          ++ js "**Overall Status**: "
          ++ (if forallb QualityCheckResult.passed results
              then js "Passed" else js "Changes Required") ++ LF ++ LF)
      ++ forEach_from 0 results formatResultsComment_check [] ++ footer).
  { eexists. unfold formatResultsComment. cbv zeta.
    rewrite (forEach_from_grows _ formatResultsComment_check_grows).
    rewrite <- !app_assoc. reflexivity. }
  destruct Hout as [footer Hout]. rewrite Hout.
  set (checks := forEach_from 0 results formatResultsComment_check []) in *.
  assert (Hall : forallb QualityCheckResult.passed results = true
                 <-> Forall (fun r => QualityCheckResult.passed r = true)
                            results).
  { rewrite forallb_forall, Forall_forall. split; intros H r Hr.
    - apply H. now apply list_elem_of_In.
    - apply H. now apply list_elem_of_In. }
  pose proof (some_result_failed results) as Hsome.
  split; [| split].
  - rewrite <- Hall.
    destruct (forallb QualityCheckResult.passed results).
    + split; [reflexivity | intros _]. apply startsWith_spec.
      eexists. rewrite <- !app_assoc. reflexivity.
    + generalize (checks ++ footer). intros rest.
      split; [| discriminate]. vm_compute. discriminate.
  - rewrite <- Hsome.
    destruct (forallb QualityCheckResult.passed results).
    + generalize (checks ++ footer). intros rest.
      split; [| discriminate]. vm_compute. discriminate.
    + split; [reflexivity | intros _]. apply startsWith_spec.
      eexists. rewrite <- !app_assoc. reflexivity.
  - intros n r Hn.
    pose proof (forEach_from_includes _ formatResultsComment_check_grows
                  results 0 [] n r Hn) as Hcheck.
    cbn [Nat.add] in Hcheck. fold checks in Hcheck.
    pose proof (formatResultsComment_check_shape n r) as Hshape.
    set (heading := js "## Check " ++ ordinal n ++ js " " ++ _ ++ LF ++ LF)
      in *.
    set (details := QualityCheckResult.details r ++ LF ++ LF) in *.
    split; [| split].
    + eapply (includes_piece _ _ _ _ [] heading _ Hcheck). exact Hshape.
    + eapply (includes_piece _ _ _ _ heading details _ Hcheck). exact Hshape.
    + intros suggestions s Hsuggestions Hin.
      rewrite Hsuggestions in Hshape.
      destruct suggestions as [| s' ss]; [inversion Hin |].
      pose proof (append_suggestions_includes _ _ Hin) as Hbullet.
      apply includes_spec in Hbullet as (b & a & Hbullet).
      rewrite Hbullet in Hshape.
      apply (includes_piece
               _ _ _ _
               (heading ++ details
                ++ (js "### Suggestions" ++ LF ++ LF) ++ b)
               (js "- " ++ s ++ LF) (a ++ LF) Hcheck).
      rewrite Hshape. now rewrite <- !app_assoc.
Qed.

(** ** The earlier worker *)

Section LegacyWorkerFacts.
Import LegacyWorker.

Section QueueFacts.
Context {S : Type}.
Variable process : PullRequestJob.t -> S -> Completion unit * S.



End QueueFacts.


Lemma retry_spec (job : PullRequestJob.t) :
  (attempt_or_0 job < 3 /\
   exists again, retry job = Some again /\
     attempt_or_0 again = attempt_or_0 job + 1 /\
     PullRequestJob.attempt again = Some (attempt_or_0 job + 1) /\
     PullRequestJob.prNumber again = PullRequestJob.prNumber job /\
     PullRequestJob.repository again = PullRequestJob.repository job /\
     PullRequestJob.sha again = PullRequestJob.sha job) \/
  (3 <= attempt_or_0 job /\ retry job = None).
Proof.
  unfold retry. destruct (attempt_or_0 job <? 3) eqn:Hlt.
  - apply Z.ltb_lt in Hlt. left. split; [exact Hlt |].
    eexists. split; [reflexivity |]. cbn. done.
  - apply Z.ltb_ge in Hlt. right. done.
Qed.

(** X18.  When every delivery fails, a job is delivered at most
    [max 1 (4 - attempt)] times, and exactly that often when nothing else
    stops the chain: a job queued without an attempt count is processed at
    most four times.  Every delivery carries the same pull request,
    repository and commit, and the [i]-th repetition the count
    [attempt + i <= 3]. *)
Theorem retry_bounded (job : PullRequestJob.t) (fuel : nat) :
  let chain := deliveries fuel job in
  let most := Z.to_nat (Z.max 1 (4 - attempt_or_0 job)) in
  (length chain <= most)%nat /\
  (most <= fuel -> length chain = most)%nat /\
  (PullRequestJob.attempt job = None -> (length chain <= 4)%nat) /\
  forall (i : nat) (job' : PullRequestJob.t),
    chain !! i = Some job' ->
    PullRequestJob.prNumber job' = PullRequestJob.prNumber job /\
    PullRequestJob.repository job' = PullRequestJob.repository job /\
    PullRequestJob.sha job' = PullRequestJob.sha job /\
    (i <> 0%nat ->
     PullRequestJob.attempt job' = Some (attempt_or_0 job + Z.of_nat i) /\
     attempt_or_0 job + Z.of_nat i <= 3).
Proof.
  cbv zeta.
  assert (Hmain :
    (length (deliveries fuel job)
       <= Z.to_nat (Z.max 1 (4 - attempt_or_0 job)))%nat /\
    (Z.to_nat (Z.max 1 (4 - attempt_or_0 job)) <= fuel ->
     length (deliveries fuel job)
       = Z.to_nat (Z.max 1 (4 - attempt_or_0 job)))%nat /\
    forall (i : nat) (job' : PullRequestJob.t),
      deliveries fuel job !! i = Some job' ->
      PullRequestJob.prNumber job' = PullRequestJob.prNumber job /\
      PullRequestJob.repository job' = PullRequestJob.repository job /\
      PullRequestJob.sha job' = PullRequestJob.sha job /\
      (i <> 0%nat ->
       PullRequestJob.attempt job' = Some (attempt_or_0 job + Z.of_nat i) /\
       attempt_or_0 job + Z.of_nat i <= 3)).
  { revert job. induction fuel as [| fuel IH]; intros job.
    - cbn [deliveries length]. split; [lia |]. split; [lia |].
      intros i job' Hi. rewrite lookup_nil in Hi. discriminate.
    - cbn [deliveries].
      destruct (retry_spec job)
        as [(Hlt & again & -> & Ha & Hatt & Hpr & Hrepo & Hsha) | (Hge & ->)].
      + destruct (IH again) as (Hlen & Hexact & Hall).
        rewrite Ha in Hlen, Hexact. cbn [length].
        split; [lia |]. split; [lia |].
        intros [| i] job' Hi.
        * injection Hi as <-. repeat split; intros; congruence.
        * cbn in Hi. destruct (Hall i job' Hi) as (H1 & H2 & H3 & H4).
          split; [congruence |]. split; [congruence |]. split; [congruence |].
          intros _. destruct i as [| i].
          -- assert (job' = again) as ->.
             { destruct fuel; cbn in Hi; [discriminate | congruence]. }
             rewrite Hatt. split; [f_equal; lia | lia].
          -- destruct H4 as [H4 H5]; [lia |]. rewrite H4, Ha.
             split; [f_equal; lia | lia].
      + cbn [length]. split; [lia |]. split; [lia |].
        intros [| i] job' Hi.
        * injection Hi as <-. repeat split; intros; congruence.
        * cbn in Hi. destruct i; discriminate. }
  destruct Hmain as (Hlen & Hexact & Hall).
  split; [exact Hlen |]. split; [exact Hexact |]. split; [| exact Hall].
  intros Hnone. unfold attempt_or_0 in Hlen. rewrite Hnone in Hlen. lia.
Qed.

Section FetchFacts.
Variable verifyGitHubSignature :
  option Payload -> option string -> string -> bool.

Lemma fetch_dispatch_spec (request : Request) (payload : option Payload)
    (q : Queue) :
  match fetch_dispatch request payload q with
  | Some (response, q') =>
      (status response = 422 /\ q' = q) \/
      (status response = 202 /\
       exists (p : Payload) (i : Issue) (pr : PullRequestRef)
              (text : JSString) (full_name : string),
         payload = Some p /\
         headers request !! "x-github-event" = Some "issue_comment" /\
         issue p = Some i /\ pull_request i = Some pr /\
         comment_body p = Some text /\
         includes text (js "/articlecheck") = true /\
         repository_full_name p = Some full_name /\
         q' = mkQueue (sent q ++ [PullRequestJob.mk (number i) full_name
                                                    (head_sha pr) None])
                      (acked q))
  | None => True
  end.
Proof.
  unfold fetch_dispatch. case_bool_decide as Hev; [| left; done].
  destruct payload as [p |]; [| exact I].
  destruct (issue p) as [i |] eqn:Hi; [| left; done].
  destruct (pull_request i) as [pr |] eqn:Hpr; [| left; done].
  destruct (comment_body p) as [text |] eqn:Hb; [| left; done].
  destruct (includes text (js "/articlecheck")) eqn:Hinc; [| left; done].
  destruct (repository_full_name p) as [full_name |] eqn:Hrepo; [| exact I].
  right. split; [reflexivity |]. exists p, i, pr, text, full_name. done.
Qed.

(** X19.  The webhook handler of the earlier worker always answers, with
    one of six status codes, and never acknowledges anything.  It answers
    202 exactly when the request is a POST carrying the three required
    headers, its body parses, the signature check accepts it, the event is
    [issue_comment], the issue is a pull request, the comment contains
    [/articlecheck] and the payload names its repository; it then queues
    one job built from the payload, without an attempt count.  Every other
    request leaves the queue as it was. *)
Theorem fetch_queues_only_verified (request : Request) (secret : string)
    (q : Queue) :
  let answer := fetch verifyGitHubSignature request secret q in
  status answer.1 ∈ [202; 400; 401; 405; 422; 500] /\
  acked answer.2 = acked q /\
  (status answer.1 <> 202 -> answer.2 = q) /\
  (method request <> "POST" -> status answer.1 = 405) /\
  (status answer.1 = 202 <->
   method request = "POST" /\
   (forall header, header ∈ REQUIRED_HEADERS ->
                   is_Some (headers request !! header)) /\
   exists (p : Payload) (i : Issue) (pr : PullRequestRef)
          (text : JSString) (full_name : string),
     json request = Return (Some p) /\
     verifyGitHubSignature (Some p) (headers request !! "x-hub-signature-256")
                           secret = true /\
     headers request !! "x-github-event" = Some "issue_comment" /\
     issue p = Some i /\ pull_request i = Some pr /\
     comment_body p = Some text /\
     includes text (js "/articlecheck") = true /\
     repository_full_name p = Some full_name /\
     answer.2 = mkQueue (sent q ++ [PullRequestJob.mk (number i) full_name
                                                      (head_sha pr) None])
                        (acked q)).
Proof.
  cbv zeta. unfold fetch.
  destruct (String.eqb_spec (method request) "POST") as [Hm | Hm]; cbn [negb].
  2:{ cbn. split; [set_solver |]. split; [reflexivity |].
      split; [reflexivity |]. split; [reflexivity |].
      split; [discriminate | intros [Hpost _]; contradiction]. }
  destruct (list_find (fun header => headers request !! header = None)
                      REQUIRED_HEADERS) as [[n header] |] eqn:Hfind.
  { apply list_find_Some in Hfind as (Hat & Hmissing & _). cbn.
    split; [set_solver |]. split; [reflexivity |]. split; [reflexivity |].
    split; [contradiction |].
    split; [discriminate |]. intros (_ & Hpresent & _).
    apply list_elem_of_lookup_2 in Hat.
    destruct (Hpresent header Hat) as [v Hv]. congruence. }
  apply list_find_None in Hfind.
  assert (Hpresent : forall header, header ∈ REQUIRED_HEADERS ->
                                    is_Some (headers request !! header)).
  { intros header Hin. rewrite Forall_forall in Hfind.
    specialize (Hfind header Hin). cbn in Hfind.
    destruct (headers request !! header); [eauto | contradiction]. }
  destruct (json request) as [payload | e] eqn:Hjson.
  2:{ cbn. split; [set_solver |]. split; [reflexivity |].
      split; [reflexivity |]. split; [contradiction |].
      split; [discriminate |].
      intros (_ & _ & p & i & pr & text & full_name & Hp & _). discriminate. }
  destruct (verifyGitHubSignature payload
              (headers request !! "x-hub-signature-256") secret) eqn:Hverify;
    cbn [negb].
  2:{ cbn. split; [set_solver |]. split; [reflexivity |].
      split; [reflexivity |]. split; [contradiction |].
      split; [discriminate |].
      intros (_ & _ & p & i & pr & text & full_name & Hp & Hv & _).
      injection Hp as ->. congruence. }
  pose proof (fetch_dispatch_spec request payload q) as Hd.
  destruct (fetch_dispatch request payload q) as [[response q'] |] eqn:Hdis.
  2:{ cbn. split; [set_solver |]. split; [reflexivity |].
      split; [reflexivity |]. split; [contradiction |].
      split; [discriminate |].
      intros (_ & _ & p & i & pr & text & full_name & Hp & _ & Hev & Hi & Hpr
              & Hb & Hinc & Hrepo & _).
      injection Hp as ->. unfold fetch_dispatch in Hdis.
      rewrite bool_decide_eq_true_2 in Hdis by exact Hev.
      rewrite Hi, Hpr, Hb, Hinc, Hrepo in Hdis. discriminate. }
  cbn [fst snd].
  destruct Hd as [[Hst ->] | (Hst & p & i & pr & text & full_name & -> & Hev
                              & Hi & Hpr & Hb & Hinc & Hrepo & ->)].
  - rewrite Hst. split; [set_solver |]. split; [reflexivity |].
    split; [reflexivity |]. split; [contradiction |].
    split; [discriminate |].
    intros (_ & _ & p & i & pr & text & full_name & Hp & _ & Hev & Hi & Hpr
            & Hb & Hinc & Hrepo & _).
    injection Hp as ->. unfold fetch_dispatch in Hdis.
    rewrite bool_decide_eq_true_2 in Hdis by exact Hev.
    rewrite Hi, Hpr, Hb, Hinc, Hrepo in Hdis.
    injection Hdis as <- _. discriminate.
  - rewrite Hst. split; [set_solver |]. split; [reflexivity |].
    split; [congruence |]. split; [contradiction |].
    split; [| reflexivity]. intros _. split; [exact Hm |].
    split; [exact Hpresent |]. exists p, i, pr, text, full_name. done.
Qed.
End FetchFacts.

End LegacyWorkerFacts.
